(** * Face-detection thumbnail selector: embedding and verification

    Shallow embedding of [file-server/scripts/face_detect_thumbnail.py].

    The script scans a video at fixed time steps, runs a face and an eye
    cascade on every sampled frame, scores each face and stops at the first
    face that clears all gates, writing a 320 pixel wide thumbnail.

    Modelling choices.
    - Python [float] and numpy [float64] values are IEEE-754 binary64 numbers.
      They are represented by [spec_float], and every arithmetic operation of
      the script is the correctly rounded operation of the standard library's
      executable specification ([SFmul], [SFadd], [SFsub], [SFdiv] at
      precision 53 and maximal exponent 1024).  Nothing is idealised to real
      or rational arithmetic.
    - Python [int] values are [Z]; [start_time] and [interval] are integers, as
      in the signature's defaults, the only values the entry point passes.
      The rectangles of a cascade are numpy [int32] values: their product
      wraps around.
    - OpenCV (decoder, colour conversion, cascades, resize, imwrite) and the
      file system are black boxes: the fields of the class [Env] for the pure
      ones, recorded in the run's [state] for the effectful ones.  [cv2.resize]
      and [cv2.imwrite] may raise, and [cv2.imwrite] may return [False]
      without writing; the script checks neither.
    - An uncaught Python exception is the outcome [Raised].
    - The [while] loop is a recursion on fuel; that enough fuel gives a result
      is proved where a claim says that the function returns.

    Contents: binary64 operations as Python uses them ([F64]); the scoring of
    a face; the selector and the entry point; a concrete environment
    ([Bench]); the theory of binary64 rounding that the numeric claims need
    ([F64Facts]); the loop and the claims. *)

From Stdlib Require Import ZArith List Bool Lia String.
From Stdlib Require Import Floats.SpecFloat.
Import ListNotations.
Open Scope Z_scope.

(** ** Binary64 arithmetic as Python uses it *)

Module F64.

Definition prec : Z := 53.
Definition emax : Z := 1024.

Definition float := spec_float.

Definition mul : float -> float -> float := SFmul prec emax.
Definition add : float -> float -> float := SFadd prec emax.
Definition sub : float -> float -> float := SFsub prec emax.
Definition div : float -> float -> float := SFdiv prec emax.
Definition abs : float -> float := SFabs.
Definition ltb : float -> float -> bool := SFltb.
Definition leb : float -> float -> bool := SFleb.
Definition eqb : float -> float -> bool := SFeqb.

(** [float(n)] for an integer [n]: round to nearest, ties to even.  Python
    raises OverflowError where this yields an infinity (|n| >= 2^1024). *)
Definition of_int (n : Z) : float := binary_normalize prec emax n 0 false.

(** The magnitude [m * 2^e] truncated to an integer. *)
Definition trunc_mag (m : positive) (e : Z) : Z :=
  match e with
  | Zneg p => Z.shiftr (Zpos m) (Zpos p)
  | _ => Zpos m * 2 ^ e
  end.

(** [int(x)] for a float [x]: truncation toward zero; ValueError on NaN and
    OverflowError on an infinity are [None]. *)
Definition to_int (x : float) : option Z :=
  match x with
  | S754_zero _ => Some 0
  | S754_finite s m e => Some (cond_Zopp s (trunc_mag m e))
  | S754_infinity _ | S754_nan => None
  end.

(** [n < x] for an integer [n] and a float [x].  Python compares the two
    exactly, without converting [n] to a float. *)
Definition int_ltb (n : Z) (x : float) : bool :=
  match x with
  | S754_nan => false
  | S754_infinity s => negb s
  | S754_zero _ => n <? 0
  | S754_finite s m e =>
      match e with
      | Zneg p => n * 2 ^ Zpos p <? cond_Zopp s (Zpos m)
      | _ => n <? cond_Zopp s (Zpos m * 2 ^ e)
      end
  end.

Definition is_finite (x : float) : bool :=
  match x with
  | S754_zero _ | S754_finite _ _ _ => true
  | _ => false
  end.

Definition is_nan (x : float) : bool :=
  match x with S754_nan => true | _ => false end.

Definition valid (x : float) : bool := valid_binary prec emax x.

(** A bound on the integers below a finite float. *)
Definition ceiling (x : float) : Z :=
  match x with
  | S754_finite false m e => Zpos m * 2 ^ Z.abs e
  | _ => 0
  end.

(** *** The rounding of binary64, on integers

    Every finite binary64 number is an integer number of units of 2^-1074.
    [rank] is that integer, with the two infinities placed beyond every
    finite number; the operations of the script are then roundings of exact
    integer results. *)

(** [m / 2^n] rounded to the nearest integer, ties to even. *)
Definition rne_shift (m n : Z) : Z :=
  let q := m / 2 ^ n in
  match 2 * (m mod 2 ^ n) ?= 2 ^ n with
  | Lt => q
  | Eq => if Z.even q then q else q + 1
  | Gt => q + 1
  end.

(** A nonnegative number of units rounded to 53 significant bits. *)
Definition round_units (v : Z) : Z :=
  let n := Z.max (Zdigits2 v - 53) 0 in
  rne_shift v n * 2 ^ n.

(** The first number of units that is too large for a finite float, and the
    place given to the infinities. *)
Definition big : Z := 2 ^ 2098.
Definition infinity_rank : Z := 2 ^ 2099.

Definition saturate (v : Z) : Z := if big <=? v then infinity_rank else v.

(** Round to nearest even with overflow to the infinities. *)
Definition round_rank (v : Z) : Z :=
  Z.sgn v * saturate (round_units (Z.abs v)).

Definition rank (x : float) : Z :=
  match x with
  | S754_zero _ | S754_nan => 0
  | S754_infinity s => cond_Zopp s infinity_rank
  | S754_finite s m e => cond_Zopp s (Zpos m * 2 ^ (e + 1074))
  end.

(** [v] is the number [m * 2^e] counted in units of 2^-1074. *)
Definition units (m e v : Z) : Prop :=
  (-1074 <= e /\ v = m * 2 ^ (e + 1074))
  \/ (e < -1074 /\ m = v * 2 ^ (-1074 - e)).

(** The record that [shr] holds after [k] right shifts of the exact
    mantissa [m]. *)
Definition shifted (m k : Z) (r : shr_record) : Prop :=
  shr_m r = m / 2 ^ k
  /\ shr_r r = (2 ^ k <=? 2 * (m mod 2 ^ k))
  /\ shr_s r = negb (m mod 2 ^ k =? 0) && negb (2 * (m mod 2 ^ k) =? 2 ^ k).

(** The second half of [binary_round_aux]: the rounded mantissa [mr] at
    exponent [E] is renormalised and checked for overflow. *)
Definition finish (s : bool) (mr E : Z) : float :=
  let '(mrs, e) := shr_fexp prec emax mr E loc_Exact in
  match shr_m mrs with
  | Z0 => S754_zero s
  | Zpos m => if e <=? emax - prec then S754_finite s m e else S754_infinity s
  | Zneg _ => S754_nan
  end.

Definition not_neg_inf (x : float) : bool :=
  match x with S754_infinity true => false | _ => true end.

Definition not_pos_inf (x : float) : bool :=
  match x with S754_infinity false => false | _ => true end.

End F64.

Abbreviation float := F64.float.

(** The result of numpy's [int32 * int32]: the product wraps around. *)
Definition wrap32 (n : Z) : Z := (n + 2 ^ 31) mod 2 ^ 32 - 2 ^ 31.

(** ** Constants of the script *)

(** The literal [0.09]: the binary64 number nearest to 9/100,
    6485183463413514 * 2^-56. *)
Definition MIN_FACE_SIZE : float := S754_finite false 6485183463413514 (-56).
Definition MIN_SCORE : Z := 75.
Definition frontal_score : Z := 50.
Definition target_width : Z := 320.
Definition IMWRITE_JPEG_QUALITY : Z := 1.
Definition jpeg_quality : Z := 85.
Definition default_start_time : Z := 10.
Definition default_interval : Z := 2.

(** ** Scoring of one face rectangle (lines 104-135) *)

(** A rectangle [(x, y, w, h)] as [detectMultiScale] returns it. *)
Record rect := Rect { rx : Z; ry : Z; rw : Z; rh : Z }.

(** [frame.shape[:2]]: rows first, then columns. *)
Record shape := Shape { height : Z; width : Z }.

Definition frame_area (s : shape) : Z := height s * width s.
Definition face_area (r : rect) : Z := wrap32 (rw r * rh r).

Definition area_ratio (s : shape) (r : rect) : float :=
  F64.div (F64.of_int (face_area r)) (F64.of_int (frame_area s)).

(** [min(30, area_ratio * 300)]: Python's [min] keeps its first argument
    unless the second is strictly smaller. *)
Definition size_score (ar : float) : float :=
  let v := F64.mul ar (F64.of_int 300) in
  if F64.ltb v (F64.of_int 30) then v else F64.of_int 30.

Definition size_gate (ar : float) : bool := negb (F64.ltb ar MIN_FACE_SIZE).

Definition center_dist (s : shape) (r : rect) : float :=
  let face_center_x := F64.add (F64.of_int (rx r)) (F64.div (F64.of_int (rw r)) (F64.of_int 2)) in
  let face_center_y := F64.add (F64.of_int (ry r)) (F64.div (F64.of_int (rh r)) (F64.of_int 2)) in
  let frame_center_x := F64.div (F64.of_int (width s)) (F64.of_int 2) in
  let frame_center_y := F64.div (F64.of_int (height s)) (F64.of_int 2) in
  let center_dist_x :=
    F64.div (F64.abs (F64.sub face_center_x frame_center_x)) (F64.of_int (width s)) in
  let center_dist_y :=
    F64.div (F64.abs (F64.sub face_center_y frame_center_y)) (F64.of_int (height s)) in
  F64.div (F64.add center_dist_x center_dist_y) (F64.of_int 2).

(** [max(0, 20 * (1 - center_dist * 2))]: Python's [max] keeps its first
    argument unless the second is strictly greater. *)
Definition position_score (cd : float) : float :=
  let v := F64.mul (F64.of_int 20)
             (F64.sub (F64.of_int 1) (F64.mul cd (F64.of_int 2))) in
  if F64.ltb (F64.of_int 0) v then v else F64.of_int 0.

Definition total_score (size position : float) : float :=
  F64.add (F64.add size position) (F64.of_int frontal_score).

Definition score_gate (total : float) : bool :=
  F64.leb (F64.of_int MIN_SCORE) total.

Definition face_total (s : shape) (r : rect) : float :=
  total_score (size_score (area_ratio s r)) (position_score (center_dist s r)).

(** What the body of the [for] loop does with one face. *)
Inductive verdict :=
| TooSmall        (* line 112: [continue] *)
| NoEyes          (* line 151: fewer than two eyes *)
| ScoreTooLow     (* line 149 *)
| Found.          (* line 135: the face is selected *)

Definition judge (s : shape) (r : rect) (eyes : nat) : verdict :=
  if F64.ltb (area_ratio s r) MIN_FACE_SIZE then TooSmall
  else if (2 <=? eyes)%nat then
         if score_gate (face_total s r) then Found else ScoreTooLow
       else NoEyes.

(** [int(height * (target_width / width))] (line 141).  [target_width / width]
    divides two Python integers and raises ZeroDivisionError on [width = 0];
    as long as [width] is below 2^53 the quotient is the correctly rounded
    one.  An infinite product makes [int] raise. *)
Definition target_height (s : shape) : option Z :=
  if width s =? 0 then None
  else F64.to_int (F64.mul (F64.of_int (height s))
                     (F64.div (F64.of_int target_width) (F64.of_int (width s)))).

(** ** The environment of a run *)

(** [cv2.VideoCapture(video_path)]: the capture's state after the
    constructor, its two properties, and the frame that [cap.set] followed by
    [cap.read] yields at an index ([None] when [ret] is false). *)
Record capture (frame : Type) := Capture {
  isOpened : bool;
  CAP_PROP_FRAME_COUNT : float;
  CAP_PROP_FPS : float;
  read : Z -> option frame
}.
Arguments Capture {frame}.
Arguments isOpened {frame}.
Arguments CAP_PROP_FRAME_COUNT {frame}.
Arguments CAP_PROP_FPS {frame}.
Arguments read {frame}.

(** [cv2.resize(frame, (w, h))], kept symbolic: the source and the size. *)
Record image (frame : Type) := Resize {
  resized_from : frame;
  image_width : Z;
  image_height : Z
}.
Arguments Resize {frame}.
Arguments resized_from {frame}.
Arguments image_width {frame}.
Arguments image_height {frame}.

(** OpenCV and the file system, as black boxes.  [frame] is a decoded colour
    frame, [gray] a grayscale working copy. *)
Class Env (frame gray : Type) := {
  frame_shape : frame -> shape;
  VideoCapture : string -> capture frame;
  (** [cv2.cuda.getCudaEnabledDeviceCount()]; [None] when the call raises. *)
  getCudaEnabledDeviceCount : option Z;
  (** Upload, [cv2.cuda.cvtColor], download; [None] when one of them raises. *)
  cuda_cvtColor : frame -> option gray;
  cvtColor : frame -> gray;
  (** The two cascades with the script's parameters, and the slice
      [gray[y:y+h, x:x+w]]. *)
  face_cascade : gray -> list rect;
  eye_cascade : gray -> list rect;
  roi : gray -> rect -> gray;
  (** [cv2.resize(frame, (w, h))] raises (an empty or oversized target, for
      one). *)
  resize_raises : frame -> Z -> Z -> bool;
  (** [cv2.imwrite(path, img, params)]: [None] when the call raises (no
      encoder for the extension of [path], for one), else the value it
      returns, which says whether the file has been written. *)
  cv2_imwrite : string -> image frame -> list Z -> option bool;
  (** [os.path.exists]. *)
  path_exists : string -> bool
}.

(** A file that [cv2.imwrite(path, img, params)] has written. *)
Record written (frame : Type) := Imwrite {
  written_path : string;
  written_image : image frame;
  written_params : list Z
}.
Arguments Imwrite {frame}.
Arguments written_path {frame}.
Arguments written_image {frame}.
Arguments written_params {frame}.

(** What a run has done so far.  [files] are the files written to disk;
    [found] is a ghost field: the frame index and the face reported on
    line 136. *)
Record state (frame : Type) := State {
  cap_open : bool;
  releases : nat;
  seeks : list Z;
  frames_checked : Z;
  files : list (written frame);
  found : option (Z * rect)
}.
Arguments State {frame}.
Arguments cap_open {frame}.
Arguments releases {frame}.
Arguments seeks {frame}.
Arguments frames_checked {frame}.
Arguments files {frame}.
Arguments found {frame}.

Inductive outcome :=
| Returned (success : bool)
| Raised.                      (* an uncaught exception *)

(** ** The selector (lines 12-160) *)

Section Selector.

Context {frame gray : Type} `{Env frame gray}.

Definition opened (cap : capture frame) : state frame :=
  State (isOpened cap) 0 [] 0 [] None.

Definition release (st : state frame) : state frame :=
  State false (S (releases st)) (seeks st) (frames_checked st) (files st) (found st).

Definition seek (idx : Z) (st : state frame) : state frame :=
  State (cap_open st) (releases st) (seeks st ++ [idx]) (frames_checked st)
        (files st) (found st).

Definition checked (st : state frame) : state frame :=
  State (cap_open st) (releases st) (seeks st) (frames_checked st + 1)
        (files st) (found st).

(** Line 136: the face is reported. *)
Definition report (sel : Z * rect) (st : state frame) : state frame :=
  State (cap_open st) (releases st) (seeks st) (frames_checked st)
        (files st) (Some sel).

(** The file [w] is on disk. *)
Definition imwrite (w : written frame) (st : state frame) : state frame :=
  State (cap_open st) (releases st) (seeks st) (frames_checked st)
        (files st ++ [w]) (found st).

(** Lines 22-31. *)
Definition use_gpu : bool :=
  match getCudaEnabledDeviceCount with
  | Some n => 0 <? n
  | None => false
  end.

(** Lines 71-82. *)
Definition to_gray (f : frame) : gray :=
  if use_gpu then
    match cuda_cvtColor f with
    | Some g => g
    | None => cvtColor f
    end
  else cvtColor f.

Definition eyes_of (g : gray) (r : rect) : nat :=
  List.length (eye_cascade (roi g r)).

(** The [for] loop of lines 98-154: the first face judged [Found]. *)
Fixpoint check_faces (s : shape) (g : gray) (faces : list rect) : option rect :=
  match faces with
  | [] => None
  | r :: rest =>
      match judge s r (eyes_of g r) with
      | Found => Some r
      | _ => check_faces s g rest
      end
  end.

(** Lines 46 and 56. *)
Definition duration (total_frames : Z) (fps : float) : float :=
  if F64.int_ltb 0 fps then F64.div (F64.of_int total_frames) fps
  else F64.of_int 0.

Definition frame_index (fps : float) (current_time : Z) : option Z :=
  F64.to_int (F64.mul (F64.of_int current_time) fps).

(** Lines 136-148.  The calls of lines 141, 142 and 145 are not guarded:
    what they raise ends the call with the capture still open.  The value
    that [cv2.imwrite] returns is dropped, and [True] is returned whether
    the file has been written or not. *)
Definition save_thumbnail (output_path : string) (f : frame) (sel : Z * rect)
    (st : state frame) : outcome * state frame :=
  let st0 := report sel st in
  match target_height (frame_shape f) with
  | None => (Raised, st0)
  | Some th =>
      if resize_raises f target_width th then (Raised, st0)
      else
        let thumbnail := Resize f target_width th in
        let params := [IMWRITE_JPEG_QUALITY; jpeg_quality] in
        match cv2_imwrite output_path thumbnail params with
        | None => (Raised, st0)
        | Some wrote =>
            let st1 :=
              if wrote then imwrite (Imwrite output_path thumbnail params) st0
              else st0 in
            (Returned true, release st1)
        end
  end.

(** The [while] loop of lines 55-156 followed by lines 158-160. *)
Fixpoint scan (cap : capture frame) (output_path : string) (interval : Z)
    (total_frames : Z) (fps : float)
    (fuel : nat) (current_time : Z) (st : state frame)
  : option (outcome * state frame) :=
  match fuel with
  | O => None
  | S fuel' =>
      if F64.int_ltb current_time (duration total_frames fps) then
        match frame_index fps current_time with
        | None => Some (Raised, st)
        | Some frame_idx =>
            if total_frames <=? frame_idx then Some (Returned false, release st)
            else
              let st1 := seek frame_idx st in
              match read cap frame_idx with
              | None =>
                  scan cap output_path interval total_frames fps
                       fuel' (current_time + interval) st1
              | Some f =>
                  let st2 := checked st1 in
                  let g := to_gray f in
                  let faces := face_cascade g in
                  if (List.length faces =? 0)%nat then
                    scan cap output_path interval total_frames fps
                         fuel' (current_time + interval) st2
                  else
                    match check_faces (frame_shape f) g faces with
                    | Some r =>
                        Some (save_thumbnail output_path f (frame_idx, r) st2)
                    | None =>
                        scan cap output_path interval total_frames fps
                             fuel' (current_time + interval) st2
                    end
              end
        end
      else Some (Returned false, release st)
  end.

Definition detect_best_face_frame (fuel : nat) (video_path output_path : string)
    (start_time interval : Z) : option (outcome * state frame) :=
  let cap := VideoCapture video_path in
  if negb (isOpened cap) then Some (Returned false, opened cap)
  else
    match F64.to_int (CAP_PROP_FRAME_COUNT cap) with
    | None => Some (Raised, opened cap)
    | Some total_frames =>
        scan cap output_path interval total_frames (CAP_PROP_FPS cap)
             fuel start_time (opened cap)
    end.

(** The entry point (lines 162-175); the result is the exit status. *)
Definition main (fuel : nat) (argv : list string) : option Z :=
  match argv with
  | [_; video_path; output_path] =>
      if negb (path_exists video_path) then Some 1
      else
        match detect_best_face_frame fuel video_path output_path
                default_start_time default_interval with
        | None => None
        | Some (Returned true, _) => Some 0
        | Some (Returned false, _) => Some 1
        | Some (Raised, _) => Some 1
        end
  | _ => Some 1
  end.

End Selector.

(** ** Specification-level vocabulary *)

Section Vocabulary.

Context {frame gray : Type} `{Env frame gray}.

(** The three conditions a face has to meet. *)
Definition qualifies (s : shape) (g : gray) (r : rect) : bool :=
  size_gate (area_ratio s r)
  && (2 <=? eyes_of g r)%nat
  && score_gate (face_total s r).

(** The [k]-th value of [current_time]. *)
Definition sample_time (start_time interval : Z) (k : nat) : Z :=
  start_time + Z.of_nat k * interval.

(** The loop body is entered at [t] and reaches the decoder. *)
Definition in_range (total_frames : Z) (fps : float) (t : Z) : bool :=
  F64.int_ltb t (duration total_frames fps)
  && match frame_index fps t with
     | Some idx => idx <? total_frames
     | None => false
     end.

(** The loop ends at [t] without an exception. *)
Definition stops (total_frames : Z) (fps : float) (t : Z) : bool :=
  negb (F64.int_ltb t (duration total_frames fps))
  || match frame_index fps t with
     | Some idx => total_frames <=? idx
     | None => false
     end.

(** The face selected in the frame sampled at [t], if any. *)
Definition selection_at (cap : capture frame) (fps : float) (t : Z)
  : option (Z * frame * rect) :=
  match frame_index fps t with
  | None => None
  | Some idx =>
      match read cap idx with
      | None => None
      | Some f =>
          match check_faces (frame_shape f) (to_gray f)
                  (face_cascade (to_gray f)) with
          | Some r => Some (idx, f, r)
          | None => None
          end
      end
  end.

(** The state after a sample in which no face was selected. *)
Definition skip (cap : capture frame) (fps : float) (t : Z) (st : state frame)
  : state frame :=
  match frame_index fps t with
  | None => st
  | Some idx =>
      match read cap idx with
      | None => seek idx st
      | Some _ => checked (seek idx st)
      end
  end.

Fixpoint skips (cap : capture frame) (fps : float) (start_time interval : Z)
    (k : nat) (st : state frame) : state frame :=
  match k with
  | O => st
  | S k' =>
      skip cap fps (sample_time start_time interval k')
           (skips cap fps start_time interval k' st)
  end.

(** What a finished run of the loop has done since state [st], by
    outcome. *)
Definition scan_post (cap : capture frame) (output_path : string)
    (total_frames : Z) (fps : float)
    (st : state frame) (res : outcome * state frame) : Prop :=
  let st' := snd res in
  match fst res with
  | Returned true =>
      exists t idx f r th wrote,
        in_range total_frames fps t = true
        /\ selection_at cap fps t = Some (idx, f, r)
        /\ target_height (frame_shape f) = Some th
        /\ resize_raises f target_width th = false
        /\ cv2_imwrite output_path (Resize f target_width th)
             [IMWRITE_JPEG_QUALITY; jpeg_quality] = Some wrote
        /\ files st' = files st
                       ++ (if wrote
                           then [Imwrite output_path (Resize f target_width th)
                                   [IMWRITE_JPEG_QUALITY; jpeg_quality]]
                           else [])
        /\ found st' = Some (idx, r)
        /\ cap_open st' = false
        /\ releases st' = S (releases st)
  | Returned false =>
      files st' = files st /\ found st' = found st
      /\ cap_open st' = false /\ releases st' = S (releases st)
  | Raised =>
      files st' = files st
      /\ cap_open st' = cap_open st /\ releases st' = releases st
      /\ (found st' = found st
          \/ exists t idx f r,
               in_range total_frames fps t = true
               /\ selection_at cap fps t = Some (idx, f, r)
               /\ found st' = Some (idx, r)
               /\ (target_height (frame_shape f) = None
                   \/ exists th,
                        target_height (frame_shape f) = Some th
                        /\ (resize_raises f target_width th = true
                            \/ cv2_imwrite output_path (Resize f target_width th)
                                 [IMWRITE_JPEG_QUALITY; jpeg_quality] = None)))
  end.

End Vocabulary.

(** The thumbnail height the specification asks for: the exact quotient
    [height * 320 / width] rounded to the nearest integer (halves upward). *)
Definition rounded_height (s : shape) : Z :=
  (2 * (height s * target_width) + width s) / (2 * width s).

(** ** A concrete environment

    Frames that carry their shape and what the cascades find in them: the face
    rectangles in detection order, each with the number of eyes found inside. *)

Module Bench.

Record frame := Frame { shape_of : shape; faces_of : list (rect * nat) }.

(** A grayscale copy, possibly sliced to a rectangle. *)
Definition gray : Type := frame * option rect.

Definition rect_eqb (a b : rect) : bool :=
  (rx a =? rx b) && (ry a =? ry b) && (rw a =? rw b) && (rh a =? rh b).

Fixpoint eyes_in (fs : list (rect * nat)) (r : rect) : nat :=
  match fs with
  | [] => O
  | (r', n) :: rest => if rect_eqb r' r then n else eyes_in rest r
  end.

Definition eye : rect := Rect 0 0 1 1.

(** [cv2.imwrite] on the bench: a path without an extension has no encoder
    and makes the call raise; a path under [/proc] cannot be created and the
    call returns [False]; every other path is written. *)
Definition writer (path : string) (img : image frame) (params : list Z)
  : option bool :=
  if String.eqb path "thumb" then None
  else if String.eqb path "/proc/thumb.jpg" then Some false
  else Some true.

(** [cv2.resize] on the bench raises for an empty target size. *)
Definition empty_size (f : frame) (w h : Z) : bool := (w <=? 0) || (h <=? 0).

Definition env (videos : string -> capture frame) (exists_ : string -> bool)
  : Env frame gray :=
  {| frame_shape := shape_of;
     VideoCapture := videos;
     getCudaEnabledDeviceCount := Some 0;
     cuda_cvtColor := fun _ => None;
     cvtColor := fun f => (f, None);
     face_cascade := fun g => map fst (faces_of (fst g));
     eye_cascade := fun g =>
       match snd g with
       | Some r => repeat eye (eyes_in (faces_of (fst g)) r)
       | None => []
       end;
     roi := fun g r => (fst g, Some r);
     resize_raises := empty_size;
     cv2_imwrite := writer;
     path_exists := exists_ |}.

Definition empty_frame : frame := Frame (Shape 1080 1920) [].

(** A 1280x723 frame: a small face first, then a centred 400x400 face with
    two eyes. *)
Definition small_face : rect := Rect 10 10 40 40.
Definition big_face : rect := Rect 440 160 400 400.
Definition face_frame : frame :=
  Frame (Shape 723 1280) [(small_face, 2%nat); (big_face, 2%nat)].

(** A 100x100 frame whose only face covers exactly 9 percent of it. *)
Definition edge_face : rect := Rect 35 35 30 30.
Definition edge_frame : frame :=
  Frame (Shape 100 100) [(edge_face, 2%nat)].

(** A 1920x1080 frame with two faces that both meet the three conditions:
    the first is off centre, the second is centred and scores higher. *)
Definition off_centre_face : rect := Rect 0 0 600 600.
Definition centred_face : rect := Rect 610 190 700 700.
Definition rival_frame : frame :=
  Frame (Shape 1080 1920) [(off_centre_face, 2%nat); (centred_face, 2%nat)].

(** 900 frames at 30 frames per second. *)
Definition thirty_seconds (frames : Z -> option frame) : capture frame :=
  Capture true (F64.of_int 900) (F64.of_int 30) frames.

(** No frame shows a face. *)
Definition plain_video : capture frame :=
  thirty_seconds (fun _ => Some empty_frame).

(** The frame sampled at 14 s (index 420) shows [face_frame]; the frame at
    12 s cannot be decoded. *)
Definition face_video : capture frame :=
  thirty_seconds (fun idx =>
    if idx =? 420 then Some face_frame
    else if idx =? 360 then None
    else Some empty_frame).

Definition edge_video : capture frame :=
  thirty_seconds (fun idx => if idx =? 300 then Some edge_frame else Some empty_frame).

Definition rival_video : capture frame :=
  thirty_seconds (fun idx => if idx =? 300 then Some rival_frame else Some empty_frame).

(** A file that is not a video, and a video that reports no frame rate. *)
Definition broken_video : capture frame :=
  Capture false (F64.of_int 0) (F64.of_int 0) (fun _ => None).
Definition no_fps_video : capture frame :=
  Capture true (F64.of_int 900) (F64.of_int 0) (fun _ => Some face_frame).

Definition videos (path : string) : capture frame :=
  if String.eqb path "plain.mp4" then plain_video
  else if String.eqb path "face.mp4" then face_video
  else if String.eqb path "edge.mp4" then edge_video
  else if String.eqb path "rival.mp4" then rival_video
  else if String.eqb path "nofps.mp4" then no_fps_video
  else broken_video.

Definition on_disk (path : string) : bool :=
  String.eqb path "plain.mp4" || String.eqb path "face.mp4"
  || String.eqb path "edge.mp4" || String.eqb path "rival.mp4"
  || String.eqb path "nofps.mp4"
  || String.eqb path "broken.mp4".

Definition world : Env frame gray := env videos on_disk.

Definition run (fuel : nat) (video_path : string) : option (outcome * state frame) :=
  @detect_best_face_frame frame gray world fuel video_path "thumb.jpg"
    default_start_time default_interval.

(** The final states of three runs: a selected face, an exhausted scan and
    a video that does not open. *)
Definition final_state (video_path : string) : state frame :=
  match run 20 video_path with
  | Some (_, st) => st
  | None => opened broken_video
  end.

Definition face_final : state frame := Eval vm_compute in final_state "face.mp4".

End Bench.

(** ** Vocabulary of the further properties *)

(** [cap.read()] delivers the frame at [idx] (line 64: [ret] is true). *)
Definition decodes {frame : Type} (cap : capture frame) (idx : Z) : bool :=
  match read cap idx with Some _ => true | None => false end.

(** [frames_checked] (lines 52 and 68) agrees with the frames sought so far. *)
Definition counted {frame : Type} (cap : capture frame) (st : state frame) : Prop :=
  frames_checked st
  = Z.of_nat (List.length (filter (decodes cap) (seeks st))).

(** The same machine without CUDA: the probe of line 23 finds no device. *)
Definition cpu_only {frame gray : Type} (E : Env frame gray) : Env frame gray :=
  {| frame_shape := @frame_shape _ _ E;
     VideoCapture := @VideoCapture _ _ E;
     getCudaEnabledDeviceCount := Some 0;
     cuda_cvtColor := fun _ => None;
     cvtColor := @cvtColor _ _ E;
     face_cascade := @face_cascade _ _ E;
     eye_cascade := @eye_cascade _ _ E;
     roi := @roi _ _ E;
     resize_raises := @resize_raises _ _ E;
     cv2_imwrite := @cv2_imwrite _ _ E;
     path_exists := @path_exists _ _ E |}.

(** Sign of a binary64 number: not below zero (a NaN counts), and above
    zero. *)
Definition is_nonneg (x : float) : bool :=
  match x with
  | S754_zero _ | S754_nan => true
  | S754_infinity s | S754_finite s _ _ => negb s
  end.

Definition is_positive (x : float) : bool :=
  match x with
  | S754_infinity false | S754_finite false _ _ => true
  | _ => false
  end.

(** A machine with one CUDA device whose conversion fails on every frame
    without a face, and a run that ends in [cv2.imwrite] raising. *)
Module Faults.

Import Bench.

Definition flaky_cuda (f : frame) : option gray :=
  match faces_of f with
  | [] => None
  | _ => Some (f, None)
  end.

Definition gpu_world : Env frame gray :=
  {| frame_shape := shape_of;
     VideoCapture := videos;
     getCudaEnabledDeviceCount := Some 1;
     cuda_cvtColor := flaky_cuda;
     cvtColor := fun f => (f, None);
     face_cascade := fun g => map fst (faces_of (fst g));
     eye_cascade := fun g =>
       match snd g with
       | Some r => repeat eye (eyes_in (faces_of (fst g)) r)
       | None => []
       end;
     roi := fun g r => (fst g, Some r);
     resize_raises := empty_size;
     cv2_imwrite := writer;
     path_exists := on_disk |}.

(** The final state of the run on [face.mp4] whose output path has no
    extension. *)
Definition no_encoder_final : state frame :=
  Eval vm_compute in
    match @detect_best_face_frame frame gray world 20 "face.mp4" "thumb"
            default_start_time default_interval with
    | Some (_, st) => st
    | None => opened broken_video
    end.

End Faults.

(** * Verification *)

(** ** Binary64 rounding

    [binary_round_aux] is characterised on integers: its result is valid, and
    with an exact location its rank is [round_rank] of the exact value.
    Rounding is monotone, and on valid floats [SFcompare] compares ranks. *)

Module F64Facts.

Import F64.

Section Digits.

Lemma pow2_pos (k : Z) : 0 <= k -> 0 < 2 ^ k.
Proof. intros. apply Z.pow_pos_nonneg; lia. Qed.

Lemma pow2_S (k : Z) : 0 <= k -> 2 ^ (k + 1) = 2 * 2 ^ k.
Proof. intros. rewrite Z.pow_add_r by lia. lia. Qed.

Lemma digits2_pos_bounds (p : positive) :
  2 ^ (Zpos (digits2_pos p) - 1) <= Zpos p < 2 ^ Zpos (digits2_pos p).
Proof.
  induction p as [p IH|p IH|]; cbn [digits2_pos].
  - rewrite Pos2Z.inj_succ. unfold Z.succ.
    replace (Zpos (digits2_pos p) + 1 - 1) with (Zpos (digits2_pos p) - 1 + 1) by lia.
    rewrite !pow2_S by lia. lia.
  - rewrite Pos2Z.inj_succ. unfold Z.succ.
    replace (Zpos (digits2_pos p) + 1 - 1) with (Zpos (digits2_pos p) - 1 + 1) by lia.
    rewrite !pow2_S by lia. lia.
  - cbn. lia.
Qed.

Lemma Zdigits2_bounds (m : Z) :
  0 < m -> 2 ^ (Zdigits2 m - 1) <= m < 2 ^ Zdigits2 m.
Proof.
  destruct m as [|p|p]; try lia. intros _. apply digits2_pos_bounds.
Qed.

Lemma Zdigits2_pos (m : Z) : 0 < m -> 0 < Zdigits2 m.
Proof. destruct m; cbn; lia. Qed.

Lemma Zdigits2_unique (m k : Z) :
  2 ^ (k - 1) <= m < 2 ^ k -> 0 < k -> Zdigits2 m = k.
Proof.
  intros [Hlo Hhi] Hk.
  assert (Hm : 0 < m) by (pose proof (pow2_pos (k - 1)); lia).
  pose proof (Zdigits2_bounds m Hm) as [Hlo' Hhi'].
  pose proof (Zdigits2_pos m Hm) as Hd.
  destruct (Z.lt_trichotomy (Zdigits2 m) k) as [Hlt|[Heq|Hgt]]; [|assumption|].
  - assert (2 ^ Zdigits2 m <= 2 ^ (k - 1)) by (apply Z.pow_le_mono_r; lia). lia.
  - assert (2 ^ k <= 2 ^ (Zdigits2 m - 1)) by (apply Z.pow_le_mono_r; lia). lia.
Qed.

Lemma Zdigits2_mono (a b : Z) : 0 < a -> a <= b -> Zdigits2 a <= Zdigits2 b.
Proof.
  intros Ha Hab.
  pose proof (Zdigits2_bounds a Ha) as [Hlo _].
  pose proof (Zdigits2_bounds b ltac:(lia)) as [_ Hhi].
  pose proof (Zdigits2_pos a Ha).
  destruct (Z.le_gt_cases (Zdigits2 a) (Zdigits2 b)) as [|Hgt]; [assumption|].
  assert (2 ^ Zdigits2 b <= 2 ^ (Zdigits2 a - 1)) by (apply Z.pow_le_mono_r; lia).
  lia.
Qed.

End Digits.

Section ShiftRight.

Lemma iter_pos_nat {A : Type} (f : A -> A) (p : positive) :
  forall x, iter_pos f p x = Nat.iter (Pos.to_nat p) f x.
Proof.
  induction p as [p IH|p IH|]; intros x; cbn [iter_pos].
  - rewrite !IH, Pos2Nat.inj_xI.
    replace (S (2 * Pos.to_nat p)) with (Pos.to_nat p + (Pos.to_nat p + 1))%nat by lia.
    rewrite !Nat.iter_add. reflexivity.
  - rewrite !IH, Pos2Nat.inj_xO.
    replace (2 * Pos.to_nat p)%nat with (Pos.to_nat p + Pos.to_nat p)%nat by lia.
    rewrite Nat.iter_add. reflexivity.
  - reflexivity.
Qed.

Lemma shifted_0 (m : Z) : shifted m 0 (Build_shr_record m false false).
Proof.
  unfold shifted. cbn [shr_m shr_r shr_s].
  rewrite Z.pow_0_r, Z.div_1_r, Z.mod_1_r. cbn. auto.
Qed.

Lemma shr_1_m (r : shr_record) :
  0 <= shr_m r ->
  shr_m (shr_1 r) = shr_m r / 2
  /\ shr_r (shr_1 r) = Z.odd (shr_m r)
  /\ shr_s (shr_1 r) = shr_r r || shr_s r.
Proof.
  destruct r as [m rb sb]. cbn [shr_m shr_r shr_s]. intros Hm.
  destruct m as [|[p|p|]|p]; try lia; cbn [shr_1 shr_m shr_r shr_s].
  - repeat split.
  - repeat split. rewrite Pos2Z.inj_xI. 
    replace (2 * Zpos p + 1) with (1 + Zpos p * 2) by lia.
    rewrite Z.div_add by lia. reflexivity.
  - repeat split. rewrite Pos2Z.inj_xO.
    replace (2 * Zpos p) with (0 + Zpos p * 2) by lia.
    rewrite Z.div_add by lia. reflexivity.
  - repeat split.
Qed.

Lemma shifted_S (m k : Z) (r : shr_record) :
  0 <= m -> 0 <= k -> shifted m k r -> shifted m (k + 1) (shr_1 r).
Proof.
  intros Hm Hk (Hq & Hr & Hs).
  pose proof (pow2_pos k Hk) as Hp.
  assert (Hq0 : 0 <= m / 2 ^ k) by (apply Z.div_pos; lia).
  destruct (shr_1_m r ltac:(lia)) as (Hq' & Hr' & Hs').
  pose proof (Z.mod_pos_bound m (2 ^ k) Hp) as Hrem.
  assert (Hdiv : m / 2 ^ (k + 1) = m / 2 ^ k / 2).
  { rewrite pow2_S by lia. rewrite (Z.mul_comm 2). rewrite Z.div_div by lia.
    reflexivity. }
  assert (Hmod : m mod 2 ^ (k + 1) = m mod 2 ^ k + 2 ^ k * ((m / 2 ^ k) mod 2)).
  { rewrite pow2_S by lia. rewrite (Z.mul_comm 2). apply Z.rem_mul_r; lia. }
  pose proof (Z.mod_pos_bound (m / 2 ^ k) 2 ltac:(lia)) as Hb.
  assert (Hodd : Z.odd (m / 2 ^ k) = ((m / 2 ^ k) mod 2 =? 1)).
  { rewrite Zmod_odd. destruct (Z.odd (m / 2 ^ k)); reflexivity. }
  unfold shifted. rewrite Hq', Hr', Hs', Hq, Hr, Hs, Hdiv, Hmod, Hodd.
  rewrite (pow2_S k) by lia.
  set (rem := m mod 2 ^ k) in *. set (b := (m / 2 ^ k) mod 2) in *.
  set (P := 2 ^ k) in *.
  clearbody rem b P.
  assert (Hb01 : b = 0 \/ b = 1) by lia.
  split; [reflexivity|]. split.
  - destruct Hb01 as [-> | ->]; rewrite ?Z.mul_0_r, ?Z.mul_1_r, ?Z.add_0_r;
      destruct (Z.leb_spec (2 * P) (2 * rem));
      destruct (Z.leb_spec (2 * P) (2 * (rem + P))); cbn; try reflexivity; lia.
  - destruct Hb01 as [-> | ->]; rewrite ?Z.mul_0_r, ?Z.mul_1_r, ?Z.add_0_r;
      destruct (Z.leb_spec P (2 * rem)); destruct (Z.eqb_spec rem 0);
      destruct (Z.eqb_spec (2 * rem) P); 
      try destruct (Z.eqb_spec (rem + P) 0);
      try destruct (Z.eqb_spec (2 * rem) (2 * P));
      try destruct (Z.eqb_spec (2 * (rem + P)) (2 * P)); cbn; try reflexivity; lia.
Qed.

Lemma shifted_iter (m : Z) (n : nat) (r : shr_record) (k : Z) :
  0 <= m -> 0 <= k -> shifted m k r ->
  shifted m (k + Z.of_nat n) (Nat.iter n shr_1 r).
Proof.
  intros Hm Hk Hr. induction n as [|n IH].
  - cbn. rewrite Z.add_0_r. assumption.
  - change (Nat.iter (S n) shr_1 r) with (shr_1 (Nat.iter n shr_1 r)).
    replace (k + Z.of_nat (S n)) with (k + Z.of_nat n + 1) by lia.
    apply shifted_S; try lia. assumption.
Qed.

(** The mantissa alone, whatever the record's two bits are at the start. *)
Lemma shr_m_iter (n : nat) :
  forall r, 0 <= shr_m r ->
            shr_m (Nat.iter n shr_1 r) = shr_m r / 2 ^ Z.of_nat n.
Proof.
  induction n as [|n IH]; intros r Hr.
  - cbn. rewrite Z.div_1_r. reflexivity.
  - change (Nat.iter (S n) shr_1 r) with (shr_1 (Nat.iter n shr_1 r)).
    assert (H0 : 0 <= shr_m (Nat.iter n shr_1 r)).
    { rewrite IH by assumption. apply Z.div_pos; [lia|apply pow2_pos; lia]. }
    destruct (shr_1_m _ H0) as (-> & _). rewrite IH by assumption.
    rewrite Nat2Z.inj_succ. unfold Z.succ. rewrite pow2_S by lia.
    rewrite Z.div_div by (try apply pow2_pos; lia).
    rewrite (Z.mul_comm 2). reflexivity.
Qed.

End ShiftRight.

Section Rounding.

Lemma fexp_eq (x : Z) : fexp prec emax x = Z.max (x - 53) (-1074).
Proof. reflexivity. Qed.

Lemma pow2_le (a b : Z) : 0 <= a <= b -> 2 ^ a <= 2 ^ b.
Proof. intros. apply Z.pow_le_mono_r; lia. Qed.

Lemma pow2_lt (a b : Z) : 0 <= a < b -> 2 ^ a < 2 ^ b.
Proof. intros. apply Z.pow_lt_mono_r; lia. Qed.

Lemma pow2_add (a b : Z) : 0 <= a -> 0 <= b -> 2 ^ (a + b) = 2 ^ a * 2 ^ b.
Proof. intros. apply Z.pow_add_r; assumption. Qed.

Lemma shr_exact (m e n : Z) :
  0 <= m -> 0 <= n ->
  exists r, shr (Build_shr_record m false false) e n = (r, e + n) /\ shifted m n r.
Proof.
  intros Hm Hn. destruct n as [|p|p]; try lia.
  - exists (Build_shr_record m false false). rewrite Z.add_0_r.
    split; [reflexivity|apply shifted_0].
  - cbn [shr]. eexists. split; [reflexivity|].
    rewrite iter_pos_nat. rewrite <- (positive_nat_Z p).
    replace (Z.of_nat (Pos.to_nat p)) with (0 + Z.of_nat (Pos.to_nat p)) by lia.
    apply shifted_iter; try lia. apply shifted_0.
Qed.

Lemma shr_any (r : shr_record) (e n : Z) :
  0 <= shr_m r -> 0 <= n ->
  snd (shr r e n) = e + n /\ shr_m (fst (shr r e n)) = shr_m r / 2 ^ n.
Proof.
  intros Hm Hn. destruct n as [|p|p]; try lia.
  - cbn [shr fst snd]. rewrite Z.div_1_r. split; [lia|reflexivity].
  - cbn [shr fst snd]. split; [reflexivity|].
    rewrite iter_pos_nat, shr_m_iter by assumption.
    rewrite positive_nat_Z. reflexivity.
Qed.

Lemma shr_nonpos (r : shr_record) (e n : Z) : n <= 0 -> shr r e n = (r, e).
Proof. destruct n; try reflexivity. lia. Qed.

Lemma rne_of_shifted (m n : Z) (r : shr_record) :
  0 <= m -> 0 <= n -> shifted m n r ->
  round_nearest_even (shr_m r) (loc_of_shr_record r) = rne_shift m n.
Proof.
  intros Hm Hn (Hq & Hr & Hs). destruct r as [q rb sb].
  cbn [shr_m shr_r shr_s] in *. unfold rne_shift. rewrite <- Hq.
  pose proof (pow2_pos n Hn) as Hp.
  pose proof (Z.mod_pos_bound m (2 ^ n) Hp) as Hrem.
  set (rem := m mod 2 ^ n) in *. set (P := 2 ^ n) in *. clearbody rem P.
  subst rb sb.
  destruct (Z.compare_spec (2 * rem) P);
    destruct (Z.leb_spec P (2 * rem)); try lia;
    destruct (Z.eqb_spec rem 0); try lia;
    destruct (Z.eqb_spec (2 * rem) P); try lia; reflexivity.
Qed.

Lemma rne_shift_bounds (m n : Z) :
  0 <= m -> 0 <= n -> m / 2 ^ n <= rne_shift m n <= m / 2 ^ n + 1.
Proof.
  intros. unfold rne_shift.
  destruct (2 * (m mod 2 ^ n) ?= 2 ^ n); try destruct (Z.even (m / 2 ^ n)); lia.
Qed.

Lemma round_nearest_even_bounds (q : Z) (l : location) :
  q <= round_nearest_even q l <= q + 1.
Proof.
  destruct l as [|[| |]]; cbn [round_nearest_even]; try destruct (Z.even q); lia.
Qed.

(** [finish] gives a valid float, whose rank is the value it was given,
    saturated. *)
Lemma finish_spec (s : bool) (mr E : Z) :
  0 <= mr <= 2 ^ 53 -> -1074 <= E -> (-1074 < E -> 2 ^ 52 <= mr) ->
  valid_binary prec emax (finish s mr E) = true
  /\ is_nan (finish s mr E) = false
  /\ rank (finish s mr E) = cond_Zopp s (saturate (mr * 2 ^ (E + 1074))).
Proof.
  intros Hmr HE Hnorm. unfold finish, shr_fexp.
  assert (H53 : 2 ^ 53 = 2 * 2 ^ 52) by reflexivity.
  assert (H52 : 0 < 2 ^ 52) by reflexivity.
  destruct (Z.eq_dec mr 0) as [->|Hnz].
  { change (Zdigits2 0) with 0. rewrite shr_nonpos by (rewrite fexp_eq; lia).
    cbn. repeat split. destruct s; reflexivity. }
  destruct (Z.eq_dec mr (2 ^ 53)) as [->|Hne].
  - (* the mantissa overflowed: one more shift *)
    change (Zdigits2 (2 ^ 53)) with 54. rewrite fexp_eq.
    replace (Z.max (54 + E - 53) (-1074) - E) with 1 by lia.
    cbn [shr_record_of_loc shr iter_pos shr_1].
    change (2 ^ 53) with (Zpos (xO (Pos.pow 2 52))). cbn [shr_1 shr_m].
    change (Zpos (Pos.pow 2 52)) with (2 ^ 52).
    change (Zpos (xO (Pos.pow 2 52))) with (2 * 2 ^ 52).
    change (emax - prec) with 971.
    assert (Hv : 2 ^ 52 * 2 ^ (E + 1 + 1074) = 2 * 2 ^ 52 * 2 ^ (E + 1074)).
    { replace (E + 1 + 1074) with (E + 1074 + 1) by lia. rewrite pow2_S by lia. lia. }
    destruct (Z.leb_spec (E + 1) 971) as [Hle|Hgt].
    + repeat split.
      * unfold valid_binary, bounded, canonical_mantissa.
        change (Zpos (digits2_pos (Pos.pow 2 52))) with 53. rewrite fexp_eq.
        change (emax - prec) with 971.
        apply andb_true_intro. split; [apply Z.eqb_eq|apply Z.leb_le]; lia.
      * unfold rank. change (Zpos (Pos.pow 2 52)) with (2 ^ 52).
        f_equal. unfold saturate.
        assert (2 * 2 ^ 52 * 2 ^ (E + 1074) < big).
        { unfold big. rewrite <- H53, <- pow2_add by lia. apply pow2_lt. lia. }
        destruct (Z.leb_spec big (2 * 2 ^ 52 * 2 ^ (E + 1074))); lia.
    + repeat split. unfold rank. f_equal. unfold saturate.
      assert (big <= 2 * 2 ^ 52 * 2 ^ (E + 1074)).
      { unfold big. rewrite <- H53, <- pow2_add by lia. apply pow2_le. lia. }
      destruct (Z.leb_spec big (2 * 2 ^ 52 * 2 ^ (E + 1074))); lia.
  - (* the mantissa fits *)
    assert (Hpos : 0 < mr) by lia.
    pose proof (Zdigits2_bounds mr Hpos) as [Hlo Hhi].
    pose proof (Zdigits2_pos mr Hpos) as Hd.
    assert (Hd53 : Zdigits2 mr <= 53).
    { destruct (Z.le_gt_cases (Zdigits2 mr) 53) as [|Hgt]; [assumption|].
      assert (2 ^ 53 <= 2 ^ (Zdigits2 mr - 1)) by (apply pow2_le; lia). lia. }
    assert (Hcanon : fexp prec emax (Zdigits2 mr + E) = E).
    { rewrite fexp_eq. destruct (Z.eq_dec E (-1074)) as [->|HE']; [lia|].
      assert (Zdigits2 mr = 53); [|lia].
      apply Zdigits2_unique; [|lia]. split; [apply Hnorm|]; lia. }
    rewrite Hcanon, Z.sub_diag. cbn [shr_record_of_loc shr shr_m].
    destruct mr as [|p|p]; try lia.
    change (emax - prec) with 971.
    destruct (Z.leb_spec E 971) as [Hle|Hgt].
    + repeat split.
      * unfold valid_binary, bounded, canonical_mantissa.
        change (Zpos (digits2_pos p)) with (Zdigits2 (Zpos p)). rewrite Hcanon.
        change (emax - prec) with 971.
        apply andb_true_intro. split; [apply Z.eqb_eq|apply Z.leb_le]; lia.
      * unfold rank. f_equal. unfold saturate.
        assert (Zpos p * 2 ^ (E + 1074) < big).
        { unfold big. 
          assert (Zpos p * 2 ^ (E + 1074) < 2 ^ 53 * 2 ^ (E + 1074)).
          { apply Z.mul_lt_mono_pos_r; [apply pow2_pos|]; lia. }
          assert (2 ^ 53 * 2 ^ (E + 1074) <= 2 ^ 2098).
          { rewrite <- pow2_add by lia. apply pow2_le. lia. }
          lia. }
        destruct (Z.leb_spec big (Zpos p * 2 ^ (E + 1074))); lia.
    + repeat split. unfold rank. f_equal. unfold saturate.
      assert (big <= Zpos p * 2 ^ (E + 1074)).
      { unfold big.
        assert (2 ^ 52 * 2 ^ (E + 1074) <= Zpos p * 2 ^ (E + 1074)).
        { apply Z.mul_le_mono_nonneg_r; [pose proof (pow2_pos (E + 1074))|apply Hnorm]; lia. }
        assert (2 ^ 2098 <= 2 ^ 52 * 2 ^ (E + 1074)).
        { rewrite <- pow2_add by lia. apply pow2_le. lia. }
        lia. }
      destruct (Z.leb_spec big (Zpos p * 2 ^ (E + 1074))); lia.
Qed.

End Rounding.

Section RoundAux.

Lemma div_pow2_small (m n : Z) :
  0 <= m -> m < 2 ^ n -> 0 <= n -> m / 2 ^ n = 0.
Proof. intros. apply Z.div_small. lia. Qed.

Lemma div_pow2_lower (m a n : Z) :
  0 <= a -> 0 <= n -> 2 ^ (a + n) <= m -> 2 ^ a <= m / 2 ^ n.
Proof.
  intros Ha Hn Hm. rewrite pow2_add in Hm by lia.
  apply Z.div_le_lower_bound; [apply pow2_pos; lia|lia].
Qed.

Lemma div_pow2_upper (m a n : Z) :
  0 <= a -> 0 <= n -> m < 2 ^ (a + n) -> m / 2 ^ n < 2 ^ a.
Proof.
  intros Ha Hn Hm. rewrite pow2_add in Hm by lia.
  apply Z.div_lt_upper_bound; [apply pow2_pos; lia|lia].
Qed.

(** The quotient kept by the first shift has at most 53 bits, and exactly 53
    above the subnormal range. *)
Lemma quotient_bounds (m e : Z) :
  0 <= m ->
  e <= fexp prec emax (Zdigits2 m + e) ->
  let E := fexp prec emax (Zdigits2 m + e) in
  0 <= m / 2 ^ (E - e) < 2 ^ 53
  /\ (-1074 < E -> 2 ^ 52 <= m / 2 ^ (E - e)).
Proof.
  intros Hm Hpre E. subst E. rewrite fexp_eq in *.
  set (d := Zdigits2 m) in *.
  set (E := Z.max (d + e - 53) (-1074)) in *.
  assert (Hn : 0 <= E - e) by lia.
  destruct (Z.eq_dec m 0) as [->|Hnz].
  { rewrite Z.div_0_l by (pose proof (pow2_pos (E - e) Hn); lia).
    change (Zdigits2 0) with 0 in d. subst d.
    split; [split; [lia|reflexivity]|]. intros. lia. }
  assert (Hpos : 0 < m) by lia.
  pose proof (Zdigits2_bounds m Hpos) as [Hlo Hhi]. fold d in Hlo, Hhi.
  pose proof (Zdigits2_pos m Hpos) as Hd. fold d in Hd.
  split; [split|].
  - apply Z.div_pos; [lia|apply pow2_pos; lia].
  - destruct (Z.le_gt_cases (E - e) d) as [Hle|Hgt].
    + assert (m / 2 ^ (E - e) < 2 ^ (d - (E - e))).
      { apply div_pow2_upper; try lia.
        replace (d - (E - e) + (E - e)) with d by lia. assumption. }
      assert (2 ^ (d - (E - e)) <= 2 ^ 53) by (apply pow2_le; lia). lia.
    + rewrite div_pow2_small; try lia.
      assert (2 ^ d <= 2 ^ (E - e)) by (apply pow2_le; lia). lia.
  - intros HE. assert (HEd : E = d + e - 53) by lia.
    apply div_pow2_lower; try lia.
    replace (52 + (E - e)) with (d - 1) by lia. assumption.
Qed.

Lemma shr_fexp_any (m e : Z) (l : location) :
  0 <= m ->
  e <= fexp prec emax (Zdigits2 m + e) ->
  let E := fexp prec emax (Zdigits2 m + e) in
  snd (shr_fexp prec emax m e l) = E
  /\ shr_m (fst (shr_fexp prec emax m e l)) = m / 2 ^ (E - e).
Proof.
  intros Hm Hpre E. unfold shr_fexp. fold E.
  assert (Hrec : shr_m (shr_record_of_loc m l) = m)
    by (destruct l as [|[| |]]; reflexivity).
  destruct (shr_any (shr_record_of_loc m l) e (E - e)) as [He Hq];
    [rewrite Hrec; assumption|subst E; lia|].
  rewrite He, Hq, Hrec. split; [lia|reflexivity].
Qed.

(** Whatever the location, the result of [binary_round_aux] on an aligned
    input is a valid float. *)
Lemma binary_round_aux_valid (s : bool) (m e : Z) (l : location) :
  0 <= m ->
  e <= fexp prec emax (Zdigits2 m + e) ->
  valid_binary prec emax (binary_round_aux prec emax s m e l) = true
  /\ is_nan (binary_round_aux prec emax s m e l) = false.
Proof.
  intros Hm Hpre.
  destruct (shr_fexp_any m e l Hm Hpre) as [He Hq].
  destruct (quotient_bounds m e Hm Hpre) as [Hb Hnorm].
  unfold binary_round_aux.
  destruct (shr_fexp prec emax m e l) as [mrs e'] eqn:Hshr.
  cbn [fst snd] in He, Hq. subst e'.
  pose proof (round_nearest_even_bounds (shr_m mrs) (loc_of_shr_record mrs)) as Hr.
  rewrite Hq in Hr.
  destruct (finish_spec s (round_nearest_even (shr_m mrs) (loc_of_shr_record mrs))
              (fexp prec emax (Zdigits2 m + e))) as (Hv & Hn & _).
  - rewrite Hq. lia.
  - rewrite fexp_eq. lia.
  - intros HE. specialize (Hnorm HE). rewrite Hq. lia.
  - unfold finish in Hv, Hn. auto.
Qed.

(** With an exact location the rounded mantissa is [rne_shift]. *)
Lemma binary_round_aux_exact (s : bool) (m e : Z) :
  0 <= m ->
  e <= fexp prec emax (Zdigits2 m + e) ->
  let E := fexp prec emax (Zdigits2 m + e) in
  valid_binary prec emax (binary_round_aux prec emax s m e loc_Exact) = true
  /\ is_nan (binary_round_aux prec emax s m e loc_Exact) = false
  /\ rank (binary_round_aux prec emax s m e loc_Exact)
     = cond_Zopp s (saturate (rne_shift m (E - e) * 2 ^ (E + 1074))).
Proof.
  intros Hm Hpre E.
  destruct (quotient_bounds m e Hm Hpre) as [Hb Hnorm]. fold E in Hb, Hnorm.
  assert (Hn : 0 <= E - e) by (subst E; lia).
  destruct (shr_exact m e (E - e) Hm Hn) as (r & Hshr & Hsh).
  pose proof (rne_of_shifted m (E - e) r Hm Hn Hsh) as Hrne.
  pose proof (rne_shift_bounds m (E - e) Hm Hn) as Hrb.
  unfold binary_round_aux, shr_fexp. fold E.
  cbn [shr_record_of_loc]. rewrite Hshr.
  replace (e + (E - e)) with E by lia. rewrite Hrne.
  destruct (finish_spec s (rne_shift m (E - e)) E) as (Hv & Hnan & Hrank).
  - lia.
  - subst E. rewrite fexp_eq. lia.
  - intros HE. specialize (Hnorm HE). lia.
  - unfold finish in Hv, Hnan, Hrank. auto.
Qed.

End RoundAux.

Section Units.

Lemma Zdigits2_shift (m k : Z) :
  0 < m -> 0 <= k -> Zdigits2 (m * 2 ^ k) = Zdigits2 m + k.
Proof.
  intros Hm Hk.
  pose proof (Zdigits2_bounds m Hm) as [Hlo Hhi].
  pose proof (Zdigits2_pos m Hm) as Hd.
  pose proof (pow2_pos k Hk) as Hp.
  apply Zdigits2_unique; [|lia].
  replace (Zdigits2 m + k - 1) with (Zdigits2 m - 1 + k) by lia.
  rewrite !pow2_add by lia. nia.
Qed.

Lemma rne_shift_scale (m n k : Z) :
  0 <= m -> 0 <= n -> 0 <= k -> rne_shift (m * 2 ^ k) (n + k) = rne_shift m n.
Proof.
  intros Hm Hn Hk. unfold rne_shift.
  pose proof (pow2_pos k Hk) as Hpk. pose proof (pow2_pos n Hn) as Hpn.
  rewrite pow2_add by lia.
  rewrite Z.div_mul_cancel_r by lia.
  rewrite Z.mul_mod_distr_r by lia.
  set (rem := m mod 2 ^ n). set (q := m / 2 ^ n).
  destruct (Z.compare_spec (2 * rem) (2 ^ n));
    destruct (Z.compare_spec (2 * (rem * 2 ^ k)) (2 ^ n * 2 ^ k));
    try reflexivity; nia.
Qed.

Lemma rne_shift_0 (m : Z) : rne_shift m 0 = m.
Proof.
  unfold rne_shift. rewrite Z.pow_0_r, Z.div_1_r, Z.mod_1_r. reflexivity.
Qed.

Lemma units_pos (m e v : Z) : 0 < m -> units m e v -> 0 < v.
Proof.
  intros Hm [[He ->]|[He Hv]].
  - pose proof (pow2_pos (e + 1074)). nia.
  - pose proof (pow2_pos (-1074 - e)). nia.
Qed.

Lemma units_shift (m e v k : Z) :
  0 <= k -> units m e v -> units (m * 2 ^ k) (e - k) v.
Proof.
  intros Hk [[He ->]|[He Hv]].
  - destruct (Z.le_gt_cases (-1074) (e - k)) as [Hle|Hgt].
    + left. split; [assumption|].
      replace (e + 1074) with (e - k + 1074 + k) by lia.
      rewrite (pow2_add (e - k + 1074) k) by lia. lia.
    + right. split; [assumption|].
      replace k with (e + 1074 + (-1074 - (e - k))) at 1 by lia.
      rewrite pow2_add by lia. lia.
  - right. split; [lia|]. subst m.
    replace (-1074 - (e - k)) with (-1074 - e + k) by lia.
    rewrite pow2_add by lia. lia.
Qed.

(** Rounding a pair is rounding its number of units. *)
Lemma round_pair_units (m e v : Z) :
  0 < m -> units m e v ->
  e <= fexp prec emax (Zdigits2 m + e) ->
  let E := fexp prec emax (Zdigits2 m + e) in
  rne_shift m (E - e) * 2 ^ (E + 1074) = round_units v.
Proof.
  intros Hm Hu Hpre E. subst E. rewrite fexp_eq in *. unfold round_units.
  destruct Hu as [[He ->]|[He Hv]].
  - rewrite Zdigits2_shift by lia.
    replace (Z.max (Zdigits2 m + (e + 1074) - 53) 0)
      with (Z.max (Zdigits2 m + e - 53) (-1074) - e + (e + 1074)) by lia.
    rewrite rne_shift_scale by lia. f_equal. f_equal. lia.
  - assert (Hvpos : 0 < v).
    { pose proof (pow2_pos (-1074 - e)). nia. }
    subst m. rewrite Zdigits2_shift in * by lia.
    replace (Z.max (Zdigits2 v + (-1074 - e) + e - 53) (-1074) - e)
      with (Z.max (Zdigits2 v - 53) 0 + (-1074 - e)) by lia.
    rewrite rne_shift_scale by lia. f_equal. f_equal. lia.
Qed.

Lemma pos_iter_xO (m d : positive) :
  Zpos (Pos.iter xO m d) = Zpos m * 2 ^ Zpos d.
Proof.
  induction d as [|d IH] using Pos.peano_ind.
  - cbn. lia.
  - rewrite Pos.iter_succ, Pos2Z.inj_xO, IH, Pos2Z.inj_succ.
    unfold Z.succ. rewrite pow2_S by lia. lia.
Qed.

Lemma shl_align_spec (m : positive) (e e' : Z) :
  snd (shl_align m e e') = Z.min e e'
  /\ Zpos (fst (shl_align m e e')) = Zpos m * 2 ^ (e - Z.min e e').
Proof.
  unfold shl_align. destruct (e' - e) as [|d|d] eqn:Hd; cbn [fst snd].
  - replace (Z.min e e') with e by lia. rewrite Z.sub_diag. cbn. lia.
  - replace (Z.min e e') with e by lia. rewrite Z.sub_diag. cbn. lia.
  - replace (Z.min e e') with e' by lia. split; [reflexivity|].
    rewrite pos_iter_xO. f_equal. f_equal. lia.
Qed.

(** [binary_round]: the input is first aligned, then rounded. *)
Lemma binary_round_spec (s : bool) (m : positive) (e v : Z) :
  units (Zpos m) e v ->
  valid_binary prec emax (binary_round prec emax s m e) = true
  /\ is_nan (binary_round prec emax s m e) = false
  /\ rank (binary_round prec emax s m e) = cond_Zopp s (saturate (round_units v)).
Proof.
  intros Hu. unfold binary_round.
  destruct (shl_align_spec m e (fexp prec emax (Zpos (digits2_pos m) + e)))
    as [He Hm].
  destruct (shl_align m e (fexp prec emax (Zpos (digits2_pos m) + e)))
    as [m' e'] eqn:Hal. cbn [fst snd] in He, Hm.
  change (Zpos (digits2_pos m)) with (Zdigits2 (Zpos m)) in *.
  set (F := fexp prec emax (Zdigits2 (Zpos m) + e)) in *.
  assert (Hk : 0 <= e - e') by lia.
  assert (Hd : Zdigits2 (Zpos m') + e' = Zdigits2 (Zpos m) + e).
  { rewrite Hm, Zdigits2_shift by lia. lia. }
  assert (Hpre : e' <= fexp prec emax (Zdigits2 (Zpos m') + e')).
  { rewrite Hd. fold F. lia. }
  assert (Hu' : units (Zpos m') e' v).
  { rewrite Hm. rewrite <- He.
    pose proof (units_shift (Zpos m) e v (e - e') Hk Hu) as Hs.
    replace (e - (e - e')) with e' in Hs by lia. exact Hs. }
  destruct (binary_round_aux_exact s (Zpos m') e' ltac:(lia) Hpre)
    as (Hv & Hn & Hr).
  repeat split; try assumption.
  rewrite Hr. rewrite (round_pair_units (Zpos m') e' v); auto. lia.
Qed.

End Units.

Section Monotone.

Lemma rne_shift_mono (m1 m2 n : Z) :
  0 <= m1 <= m2 -> 0 <= n -> rne_shift m1 n <= rne_shift m2 n.
Proof.
  intros Hm Hn.
  pose proof (pow2_pos n Hn) as Hp.
  pose proof (rne_shift_bounds m1 n ltac:(lia) Hn) as Hb1.
  pose proof (rne_shift_bounds m2 n ltac:(lia) Hn) as Hb2.
  assert (Hq : m1 / 2 ^ n <= m2 / 2 ^ n) by (apply Z.div_le_mono; lia).
  destruct (Z.eq_dec (m1 / 2 ^ n) (m2 / 2 ^ n)) as [Heq|Hne]; [|lia].
  pose proof (Z.div_mod m1 (2 ^ n) ltac:(lia)) as H1.
  pose proof (Z.div_mod m2 (2 ^ n) ltac:(lia)) as H2.
  assert (Hrem : m1 mod 2 ^ n <= m2 mod 2 ^ n) by nia.
  unfold rne_shift. rewrite <- Heq.
  destruct (Z.compare_spec (2 * (m1 mod 2 ^ n)) (2 ^ n));
    destruct (Z.compare_spec (2 * (m2 mod 2 ^ n)) (2 ^ n));
    destruct (Z.even (m1 / 2 ^ n)); lia.
Qed.

Lemma round_units_nonneg (v : Z) : 0 <= v -> 0 <= round_units v.
Proof.
  intros Hv. unfold round_units.
  set (n := Z.max (Zdigits2 v - 53) 0).
  pose proof (rne_shift_bounds v n Hv ltac:(lia)).
  pose proof (pow2_pos n ltac:(lia)).
  assert (0 <= v / 2 ^ n) by (apply Z.div_pos; lia). nia.
Qed.

Lemma round_units_0 : round_units 0 = 0.
Proof. reflexivity. Qed.

Lemma round_units_mono (v1 v2 : Z) :
  0 <= v1 <= v2 -> round_units v1 <= round_units v2.
Proof.
  intros [H1 H12].
  destruct (Z.eq_dec v1 0) as [->|Hnz].
  { rewrite round_units_0. apply round_units_nonneg. lia. }
  assert (Hp1 : 0 < v1) by lia. assert (Hp2 : 0 < v2) by lia.
  pose proof (Zdigits2_mono v1 v2 Hp1 H12) as Hd.
  pose proof (Zdigits2_bounds v1 Hp1) as [Hlo1 Hhi1].
  pose proof (Zdigits2_bounds v2 Hp2) as [Hlo2 Hhi2].
  pose proof (Zdigits2_pos v1 Hp1) as Hd1.
  unfold round_units.
  set (d1 := Zdigits2 v1) in *. set (d2 := Zdigits2 v2) in *.
  set (n1 := Z.max (d1 - 53) 0). set (n2 := Z.max (d2 - 53) 0).
  assert (Hn1 : 0 <= n1) by lia. assert (Hn2 : 0 <= n2) by lia.
  destruct (Z.eq_dec n1 n2) as [Heq|Hne].
  - rewrite <- Heq.
    apply Z.mul_le_mono_nonneg_r; [pose proof (pow2_pos n1 Hn1); lia|].
    apply rne_shift_mono; lia.
  - assert (Hlt : d1 < d2) by lia.
    pose proof (rne_shift_bounds v1 n1 ltac:(lia) Hn1) as Hb1.
    pose proof (rne_shift_bounds v2 n2 ltac:(lia) Hn2) as Hb2.
    assert (Hq1 : v1 / 2 ^ n1 < 2 ^ (d1 - n1)).
    { apply div_pow2_upper; try lia.
      replace (d1 - n1 + n1) with d1 by lia. assumption. }
    assert (Hq2 : 2 ^ (d2 - 1 - n2) <= v2 / 2 ^ n2).
    { apply div_pow2_lower; try lia.
      replace (d2 - 1 - n2 + n2) with (d2 - 1) by lia. assumption. }
    assert (Ha : rne_shift v1 n1 * 2 ^ n1 <= 2 ^ d1).
    { assert (He : 2 ^ d1 = 2 ^ (d1 - n1) * 2 ^ n1)
        by (rewrite <- pow2_add by lia; f_equal; lia).
      rewrite He.
      apply Z.mul_le_mono_nonneg_r; [pose proof (pow2_pos n1 Hn1)|]; lia. }
    assert (Hb : 2 ^ (d2 - 1) <= rne_shift v2 n2 * 2 ^ n2).
    { assert (He : 2 ^ (d2 - 1) = 2 ^ (d2 - 1 - n2) * 2 ^ n2)
        by (rewrite <- pow2_add by lia; f_equal; lia).
      rewrite He.
      apply Z.mul_le_mono_nonneg_r; [pose proof (pow2_pos n2 Hn2)|]; lia. }
    assert (2 ^ d1 <= 2 ^ (d2 - 1)) by (apply pow2_le; lia).
    lia.
Qed.

Lemma big_lt_infinity : 0 < big /\ infinity_rank = 2 * big.
Proof.
  unfold big, infinity_rank. split; [apply pow2_pos; lia|].
  change 2099 with (2098 + 1). apply pow2_S. lia.
Qed.

Lemma saturate_mono (v1 v2 : Z) : v1 <= v2 -> saturate v1 <= saturate v2.
Proof.
  intros H. unfold saturate. pose proof big_lt_infinity.
  destruct (Z.leb_spec big v1); destruct (Z.leb_spec big v2); lia.
Qed.

Lemma saturate_nonneg (v : Z) : 0 <= v -> 0 <= saturate v.
Proof.
  intros H. unfold saturate. pose proof big_lt_infinity.
  destruct (Z.leb_spec big v); lia.
Qed.

Lemma round_rank_mono (v1 v2 : Z) : v1 <= v2 -> round_rank v1 <= round_rank v2.
Proof.
  intros H. unfold round_rank.
  pose proof (saturate_nonneg (round_units (Z.abs v1))
                (round_units_nonneg _ (Z.abs_nonneg v1))) as Hs1.
  pose proof (saturate_nonneg (round_units (Z.abs v2))
                (round_units_nonneg _ (Z.abs_nonneg v2))) as Hs2.
  destruct (Z.sgn_spec v1) as [[Hv1 ->]|[[Hv1 ->]|[Hv1 ->]]];
    destruct (Z.sgn_spec v2) as [[Hv2 ->]|[[Hv2 ->]|[Hv2 ->]]]; try lia.
  - assert (saturate (round_units (Z.abs v1)) <= saturate (round_units (Z.abs v2)))
      by (apply saturate_mono, round_units_mono; lia). lia.
  - assert (saturate (round_units (Z.abs v2)) <= saturate (round_units (Z.abs v1)))
      by (apply saturate_mono, round_units_mono; lia). lia.
Qed.

End Monotone.

Section Order.

Lemma valid_finite (s : bool) (m : positive) (e : Z) :
  valid_binary prec emax (S754_finite s m e) = true ->
  -1074 <= e <= 971
  /\ Zpos m < 2 ^ 53
  /\ (-1074 < e -> 2 ^ 52 <= Zpos m).
Proof.
  unfold valid_binary, bounded, canonical_mantissa. intros H.
  apply andb_prop in H. destruct H as [Hc Hb].
  apply Z.eqb_eq in Hc. apply Z.leb_le in Hb.
  change (Zpos (digits2_pos m)) with (Zdigits2 (Zpos m)) in Hc.
  rewrite fexp_eq in Hc. change (emax - prec) with 971 in Hb.
  pose proof (Zdigits2_bounds (Zpos m) ltac:(lia)) as [Hlo Hhi].
  pose proof (Zdigits2_pos (Zpos m) ltac:(lia)) as Hd.
  split; [lia|]. split.
  - assert (2 ^ Zdigits2 (Zpos m) <= 2 ^ 53) by (apply pow2_le; lia). lia.
  - intros He. replace (Zdigits2 (Zpos m)) with 53 in Hlo by lia. exact Hlo.
Qed.

Lemma finite_rank_bounds (s : bool) (m : positive) (e : Z) :
  valid_binary prec emax (S754_finite s m e) = true ->
  0 < Zpos m * 2 ^ (e + 1074) < big.
Proof.
  intros H. apply valid_finite in H. destruct H as (He & Hm & _).
  pose proof (pow2_pos (e + 1074) ltac:(lia)). split; [lia|].
  assert (Zpos m * 2 ^ (e + 1074) < 2 ^ 53 * 2 ^ (e + 1074)) by nia.
  assert (2 ^ 53 * 2 ^ (e + 1074) <= big).
  { unfold big. rewrite <- pow2_add by lia. apply pow2_le. lia. }
  lia.
Qed.

Lemma finite_rank_lt (s1 s2 : bool) (m1 m2 : positive) (e1 e2 : Z) :
  valid_binary prec emax (S754_finite s1 m1 e1) = true ->
  valid_binary prec emax (S754_finite s2 m2 e2) = true ->
  e1 < e2 ->
  Zpos m1 * 2 ^ (e1 + 1074) < Zpos m2 * 2 ^ (e2 + 1074).
Proof.
  intros H1 H2 He. apply valid_finite in H1, H2.
  destruct H1 as (He1 & Hm1 & _). destruct H2 as (He2 & _ & Hn2).
  specialize (Hn2 ltac:(lia)).
  pose proof (pow2_pos (e1 + 1074) ltac:(lia)).
  pose proof (pow2_pos (e2 + 1074) ltac:(lia)).
  assert (Zpos m1 * 2 ^ (e1 + 1074) < 2 ^ 53 * 2 ^ (e1 + 1074)) by nia.
  assert (2 ^ 53 * 2 ^ (e1 + 1074) <= 2 ^ 52 * 2 ^ (e2 + 1074)).
  { rewrite <- !pow2_add by lia. apply pow2_le. lia. }
  assert (2 ^ 52 * 2 ^ (e2 + 1074) <= Zpos m2 * 2 ^ (e2 + 1074)) by nia.
  lia.
Qed.

(** On valid floats the comparison is the comparison of ranks. *)
Lemma SFcompare_rank (x y : float) :
  valid_binary prec emax x = true -> valid_binary prec emax y = true ->
  is_nan x = false -> is_nan y = false ->
  SFcompare x y = Some (rank x ?= rank y).
Proof.
  intros Hx Hy Hnx Hny. pose proof big_lt_infinity as Hbig.
  assert (Hsolve : forall a b c, (c = Eq -> a = b) -> (c = Lt -> a < b) ->
                                 (c = Gt -> a > b) -> Some c = Some (a ?= b)).
  { intros a b c He Hl Hg. f_equal. symmetry. destruct c.
    - apply Z.compare_eq_iff. auto.
    - apply Z.compare_lt_iff. auto.
    - apply Z.compare_gt_iff. specialize (Hg eq_refl). lia. }
  destruct x as [sx|sx| |sx mx ex]; try discriminate;
    destruct y as [sy|sy| |sy my ey]; try discriminate;
    try pose proof (finite_rank_bounds _ _ _ Hx) as Bx;
    try pose proof (finite_rank_bounds _ _ _ Hy) as By;
    cbn [SFcompare rank];
    try (try destruct sx; try destruct sy; cbn [cond_Zopp];
         apply Hsolve; intros; try discriminate; lia).
  - assert (Hc : forall c, Pos.compare_cont c mx my
                           = match Zpos mx ?= Zpos my with Eq => c | r => r end).
    { intros c. rewrite Pos.compare_cont_spec. cbn [Z.compare].
      destruct (mx ?= my)%positive; reflexivity. }
    destruct sx, sy; cbn [cond_Zopp]; f_equal;
      try (symmetry; apply Z.compare_lt_iff; lia);
      try (symmetry; apply Z.compare_gt_iff; lia).
    + destruct (Z.compare_spec ex ey) as [->|Hlt|Hgt].
      * rewrite Hc. pose proof (pow2_pos (ey + 1074)
                                  ltac:(apply valid_finite in Hy; lia)).
        destruct (Z.compare_spec (Zpos mx) (Zpos my)) as [Heq|Hl|Hg];
          cbn [CompOpp]; symmetry;
          [apply Z.compare_eq_iff|apply Z.compare_gt_iff|apply Z.compare_lt_iff]; nia.
      * pose proof (finite_rank_lt _ _ _ _ _ _ Hx Hy Hlt).
        symmetry. apply Z.compare_gt_iff. lia.
      * pose proof (finite_rank_lt _ _ _ _ _ _ Hy Hx ltac:(lia)).
        symmetry. apply Z.compare_lt_iff. lia.
    + destruct (Z.compare_spec ex ey) as [->|Hlt|Hgt].
      * rewrite Hc. pose proof (pow2_pos (ey + 1074)
                                  ltac:(apply valid_finite in Hy; lia)).
        destruct (Z.compare_spec (Zpos mx) (Zpos my)) as [Heq|Hl|Hg];
          symmetry;
          [apply Z.compare_eq_iff|apply Z.compare_lt_iff|apply Z.compare_gt_iff]; nia.
      * pose proof (finite_rank_lt _ _ _ _ _ _ Hx Hy Hlt).
        symmetry. apply Z.compare_lt_iff. lia.
      * pose proof (finite_rank_lt _ _ _ _ _ _ Hy Hx ltac:(lia)).
        symmetry. apply Z.compare_gt_iff. lia.
Qed.

End Order.

Section Operations.

Lemma round_units_exact (m k : Z) :
  0 < m < 2 ^ 53 -> 0 <= k -> (0 < k -> 2 ^ 52 <= m) ->
  round_units (m * 2 ^ k) = m * 2 ^ k.
Proof.
  intros Hm Hk Hn. unfold round_units.
  rewrite Zdigits2_shift by lia.
  pose proof (Zdigits2_bounds m ltac:(lia)) as [Hlo Hhi].
  pose proof (Zdigits2_pos m ltac:(lia)) as Hd.
  assert (Hd53 : Zdigits2 m <= 53).
  { destruct (Z.le_gt_cases (Zdigits2 m) 53) as [|Hgt]; [assumption|].
    assert (2 ^ 53 <= 2 ^ (Zdigits2 m - 1)) by (apply pow2_le; lia). lia. }
  assert (Hmax : Z.max (Zdigits2 m + k - 53) 0 = k).
  { destruct (Z.eq_dec k 0) as [->|Hk0]; [lia|].
    assert (Zdigits2 m = 53); [|lia].
    apply Zdigits2_unique; [|lia]. split; [apply Hn|]; lia. }
  rewrite Hmax. replace k with (0 + k) at 2 by lia.
  rewrite rne_shift_scale by lia. rewrite rne_shift_0. reflexivity.
Qed.

Lemma round_units_big (v : Z) : big <= v -> big <= round_units v.
Proof.
  intros Hv. pose proof big_lt_infinity.
  assert (Hb : round_units big = big).
  { unfold big. replace (2 ^ 2098) with (2 ^ 52 * 2 ^ 2046) by reflexivity.
    apply round_units_exact; lia. }
  rewrite <- Hb at 1. apply round_units_mono. lia.
Qed.

Lemma round_rank_big (v : Z) : big <= v -> round_rank v = infinity_rank.
Proof.
  intros Hv. pose proof big_lt_infinity. unfold round_rank.
  rewrite Z.sgn_pos, Z.abs_eq by lia.
  pose proof (round_units_big v Hv). unfold saturate.
  destruct (Z.leb_spec big (round_units v)); lia.
Qed.

Lemma round_rank_opp (v : Z) : round_rank (- v) = - round_rank v.
Proof. unfold round_rank. rewrite Z.sgn_opp, Z.abs_opp. lia. Qed.

Lemma round_rank_neg_big (v : Z) : v <= - big -> round_rank v = - infinity_rank.
Proof.
  intros Hv. replace v with (- - v) by lia.
  rewrite round_rank_opp, round_rank_big by lia. reflexivity.
Qed.

Lemma round_rank_pos (v : Z) : 0 <= v -> round_rank v = saturate (round_units v).
Proof.
  intros Hv. unfold round_rank. destruct (Z.eq_dec v 0) as [->|Hnz].
  - reflexivity.
  - rewrite Z.sgn_pos, Z.abs_eq by lia. lia.
Qed.

Lemma round_rank_cond (s : bool) (v : Z) :
  0 <= v -> cond_Zopp s (saturate (round_units v)) = round_rank (cond_Zopp s v).
Proof.
  intros Hv. destruct s; cbn [cond_Zopp].
  - rewrite round_rank_opp, round_rank_pos by assumption. reflexivity.
  - rewrite round_rank_pos by assumption. reflexivity.
Qed.

(** A valid float is its own rounding. *)
Lemma round_rank_valid (x : float) :
  valid_binary prec emax x = true -> round_rank (rank x) = rank x.
Proof.
  intros Hx. pose proof big_lt_infinity.
  destruct x as [s|s| |s m e]; cbn [rank]; try reflexivity.
  - destruct s; cbn [cond_Zopp].
    + rewrite round_rank_opp, round_rank_big; lia.
    + apply round_rank_big. lia.
  - pose proof (finite_rank_bounds s m e Hx) as Hb.
    apply valid_finite in Hx. destruct Hx as (He & Hm & Hn).
    rewrite <- round_rank_cond by lia. f_equal.
    assert (Hru : round_units (Zpos m * 2 ^ (e + 1074)) = Zpos m * 2 ^ (e + 1074))
      by (apply round_units_exact; try lia; intros; apply Hn; lia).
    rewrite Hru. unfold saturate.
    destruct (Z.leb_spec big (Zpos m * 2 ^ (e + 1074))); lia.
Qed.

(** [binary_normalize] rounds the integer [M * 2^e] . *)
Lemma binary_normalize_spec (M e : Z) :
  -1074 <= e ->
  valid_binary prec emax (binary_normalize prec emax M e false) = true
  /\ is_nan (binary_normalize prec emax M e false) = false
  /\ rank (binary_normalize prec emax M e false) = round_rank (M * 2 ^ (e + 1074)).
Proof.
  intros He. pose proof (pow2_pos (e + 1074) ltac:(lia)) as Hp.
  destruct M as [|m|m]; cbn [binary_normalize].
  - repeat split.
  - destruct (binary_round_spec false m e (Zpos m * 2 ^ (e + 1074)))
      as (Hv & Hn & Hr); [left; auto|].
    repeat split; try assumption. rewrite Hr.
    rewrite round_rank_cond by lia. reflexivity.
  - destruct (binary_round_spec true m e (Zpos m * 2 ^ (e + 1074)))
      as (Hv & Hn & Hr); [left; auto|].
    repeat split; try assumption. rewrite Hr.
    rewrite round_rank_cond by lia. cbn [cond_Zopp]. f_equal. lia.
Qed.

Lemma rank_aligned (s : bool) (m : positive) (e ez : Z) :
  -1074 <= ez <= e ->
  cond_Zopp s (Zpos (fst (shl_align m e ez))) * 2 ^ (ez + 1074)
  = rank (S754_finite s m e).
Proof.
  intros He. destruct (shl_align_spec m e ez) as [_ Hm]. rewrite Hm.
  replace (Z.min e ez) with ez by lia. cbn [rank].
  replace (e + 1074) with (e - ez + (ez + 1074)) by lia.
  rewrite (pow2_add (e - ez) (ez + 1074)) by lia.
  destruct s; cbn [cond_Zopp]; ring.
Qed.

Lemma rank_range (x : float) :
  valid_binary prec emax x = true ->
  - infinity_rank <= rank x <= infinity_rank
  /\ (not_neg_inf x = true -> - big < rank x)
  /\ (not_pos_inf x = true -> rank x < big).
Proof.
  intros Hx. pose proof big_lt_infinity.
  destruct x as [s|s| |s m e]; cbn [rank not_neg_inf not_pos_inf].
  - lia.
  - destruct s; cbn [cond_Zopp]; repeat split; try lia; discriminate.
  - lia.
  - pose proof (finite_rank_bounds s m e Hx). destruct s; cbn [cond_Zopp]; lia.
Qed.

Lemma not_neg_inf_rank (x : float) :
  - infinity_rank < rank x -> not_neg_inf x = true.
Proof.
  destruct x as [s|[|]| |s m e]; try reflexivity. cbn. lia.
Qed.

(** Addition, when no operand is minus infinity. *)
Lemma add_spec (x y : float) :
  valid_binary prec emax x = true -> valid_binary prec emax y = true ->
  is_nan x = false -> is_nan y = false ->
  not_neg_inf x = true -> not_neg_inf y = true ->
  valid_binary prec emax (SFadd prec emax x y) = true
  /\ is_nan (SFadd prec emax x y) = false
  /\ rank (SFadd prec emax x y) = round_rank (rank x + rank y).
Proof.
  intros Hx Hy Hnx Hny Hix Hiy.
  destruct x as [sx|[|]| |sx mx ex]; try discriminate;
    destruct y as [sy|[|]| |sy my ey]; try discriminate;
    pose proof big_lt_infinity as Hbig;
    try pose proof (rank_range _ Hx) as (_ & Hlx & _);
    try pose proof (rank_range _ Hy) as (_ & Hly & _);
    try specialize (Hlx eq_refl); try specialize (Hly eq_refl);
    cbn [SFadd]; cbn [rank cond_Zopp] in *;
    try (rewrite round_rank_big by lia; auto).
  - destruct sx, sy; cbn; auto.
  - repeat split; try assumption.
    rewrite Z.add_0_l. apply (eq_sym (round_rank_valid _ Hy)).
  - repeat split; try assumption.
    rewrite Z.add_0_r. apply (eq_sym (round_rank_valid _ Hx)).
  - cbn [SFadd].
    pose proof (valid_finite _ _ _ Hx) as (Hex & _).
    pose proof (valid_finite _ _ _ Hy) as (Hey & _).
    set (ez := Z.min ex ey).
    destruct (binary_normalize_spec
                (cond_Zopp sx (Zpos (fst (shl_align mx ex ez)))
                 + cond_Zopp sy (Zpos (fst (shl_align my ey ez)))) ez)
      as (Hv & Hn & Hr); [lia|].
    rewrite Z.mul_add_distr_r in Hr.
    rewrite !rank_aligned in Hr by lia.
    repeat split; assumption.
Qed.

(** Subtraction from a finite number. *)
Lemma sub_spec (x y : float) :
  valid_binary prec emax x = true -> valid_binary prec emax y = true ->
  is_finite x = true -> is_nan y = false ->
  valid_binary prec emax (SFsub prec emax x y) = true
  /\ is_nan (SFsub prec emax x y) = false
  /\ rank (SFsub prec emax x y) = round_rank (rank x - rank y).
Proof.
  intros Hx Hy Hfx Hny.
  destruct x as [sx|sx| |sx mx ex]; try discriminate;
    destruct y as [sy|sy| |sy my ey]; try discriminate;
    pose proof big_lt_infinity as Hbig;
    try pose proof (rank_range _ Hx) as (_ & Hlx & Hux);
    try specialize (Hlx eq_refl); try specialize (Hux eq_refl);
    cbn [SFsub]; cbn [rank cond_Zopp] in *.
  - destruct sx, sy; cbn; auto.
  - destruct sy; cbn [negb rank cond_Zopp]; repeat split; symmetry;
      first [apply round_rank_big; lia|apply round_rank_neg_big; lia].
  - repeat split; try assumption.
    rewrite Z.sub_0_l, round_rank_opp.
    pose proof (round_rank_valid _ Hy) as Hr. cbn [rank] in Hr. rewrite Hr.
    destruct sy; cbn [negb cond_Zopp]; lia.
  - repeat split; try assumption.
    rewrite Z.sub_0_r. apply (eq_sym (round_rank_valid _ Hx)).
  - destruct sy; cbn [negb rank cond_Zopp]; repeat split; symmetry;
      first [apply round_rank_big; lia|apply round_rank_neg_big; lia].
  - pose proof (valid_finite _ _ _ Hx) as (Hex & _).
    pose proof (valid_finite _ _ _ Hy) as (Hey & _).
    set (ez := Z.min ex ey).
    destruct (binary_normalize_spec
                (cond_Zopp sx (Zpos (fst (shl_align mx ex ez)))
                 - cond_Zopp sy (Zpos (fst (shl_align my ey ez)))) ez)
      as (Hv & Hn & Hr); [lia|].
    rewrite Z.mul_sub_distr_r in Hr.
    rewrite !rank_aligned in Hr by lia.
    repeat split; assumption.
Qed.

Lemma SFmul_comm (x y : float) : SFmul prec emax x y = SFmul prec emax y x.
Proof.
  destruct x as [sx|sx| |sx mx ex]; destruct y as [sy|sy| |sy my ey];
    cbn [SFmul]; rewrite ?(xorb_comm sx sy); try reflexivity.
  rewrite (Pos.mul_comm mx my), (Z.add_comm ex ey). reflexivity.
Qed.

(** Multiplication by a positive integer constant [C] whose float has a full
    53-bit mantissa. *)
Lemma mul_const_spec (x : float) (mc : positive) (ec C : Z) :
  valid_binary prec emax x = true -> is_nan x = false ->
  ec < 0 -> 2 ^ 52 <= Zpos mc -> 0 < C -> Zpos mc = C * 2 ^ (- ec) ->
  valid_binary prec emax (SFmul prec emax x (S754_finite false mc ec)) = true
  /\ is_nan (SFmul prec emax x (S754_finite false mc ec)) = false
  /\ rank (SFmul prec emax x (S754_finite false mc ec)) = round_rank (rank x * C).
Proof.
  intros Hx Hnx Hec Hmc HC Hc.
  destruct x as [sx|sx| |sx mx ex]; try discriminate;
    pose proof big_lt_infinity as Hbig; cbn [SFmul]; rewrite xorb_false_r.
  - repeat split.
  - repeat split. cbn [rank].
    destruct sx; cbn [cond_Zopp]; symmetry;
      first [apply round_rank_big; nia|apply round_rank_neg_big; nia].
  - pose proof (valid_finite _ _ _ Hx) as (Hex & _).
    pose proof (pow2_pos (ex + 1074) ltac:(lia)) as Hp.
    pose proof (pow2_pos (- ec) ltac:(lia)) as Hpc.
    assert (Hpre : ex + ec
                   <= fexp prec emax (Zdigits2 (Zpos (mx * mc)) + (ex + ec))).
    { rewrite fexp_eq.
      assert (53 <= Zdigits2 (Zpos (mx * mc))); [|lia].
      pose proof (Zdigits2_bounds (Zpos (mx * mc)) ltac:(lia)) as [_ Hhi].
      destruct (Z.le_gt_cases 53 (Zdigits2 (Zpos (mx * mc)))) as [|Hlt];
        [assumption|].
      assert (2 ^ Zdigits2 (Zpos (mx * mc)) <= 2 ^ 52).
      { pose proof (Zdigits2_pos (Zpos (mx * mc)) ltac:(lia)).
        apply pow2_le. lia. }
      rewrite Pos2Z.inj_mul in *. nia. }
    assert (Hu : units (Zpos (mx * mc)) (ex + ec) (Zpos mx * 2 ^ (ex + 1074) * C)).
    { rewrite Pos2Z.inj_mul, Hc.
      destruct (Z.le_gt_cases (-1074) (ex + ec)) as [Hle|Hgt].
      - left. split; [assumption|].
        replace (ex + 1074) with (- ec + (ex + ec + 1074)) by lia.
        rewrite (pow2_add (- ec) (ex + ec + 1074)) by lia. ring.
      - right. split; [assumption|].
        replace (- ec) with (ex + 1074 + (-1074 - (ex + ec))) at 1 by lia.
        rewrite (pow2_add (ex + 1074) (-1074 - (ex + ec))) by lia. ring. }
    destruct (binary_round_aux_exact sx (Zpos (mx * mc)) (ex + ec) ltac:(lia) Hpre)
      as (Hv & Hn & Hr).
    repeat split; try assumption.
    rewrite Hr, (round_pair_units (Zpos (mx * mc)) (ex + ec) _ ltac:(lia) Hu Hpre).
    rewrite round_rank_cond by nia. cbn [rank]. f_equal.
    destruct sx; cbn [cond_Zopp]; ring.
Qed.

(** Multiplication by a constant with a full mantissa gives a valid float
    whatever its other operand is. *)
Lemma mul_const_valid (x : float) (mc : positive) (ec : Z) :
  2 ^ 52 <= Zpos mc ->
  valid_binary prec emax (SFmul prec emax x (S754_finite false mc ec)) = true.
Proof.
  intros Hmc. destruct x as [sx|sx| |sx mx ex]; cbn [SFmul]; try reflexivity.
  apply binary_round_aux_valid; [lia|].
  rewrite fexp_eq.
  assert (53 <= Zdigits2 (Zpos (mx * mc))); [|lia].
  pose proof (Zdigits2_bounds (Zpos (mx * mc)) ltac:(lia)) as [_ Hhi].
  destruct (Z.le_gt_cases 53 (Zdigits2 (Zpos (mx * mc)))) as [|Hlt]; [assumption|].
  assert (2 ^ Zdigits2 (Zpos (mx * mc)) <= 2 ^ 52).
  { pose proof (Zdigits2_pos (Zpos (mx * mc)) ltac:(lia)). apply pow2_le. lia. }
  rewrite Pos2Z.inj_mul in *. nia.
Qed.

Lemma Zdigits2_lower (q k : Z) : 0 <= k -> 2 ^ k <= q -> k + 1 <= Zdigits2 q.
Proof.
  intros Hk Hq. pose proof (pow2_pos k Hk).
  pose proof (Zdigits2_bounds q ltac:(lia)) as [_ Hhi].
  pose proof (Zdigits2_pos q ltac:(lia)).
  destruct (Z.le_gt_cases (k + 1) (Zdigits2 q)) as [|Hlt]; [assumption|].
  assert (2 ^ Zdigits2 q <= 2 ^ k) by (apply pow2_le; lia). lia.
Qed.

Lemma Zdigits2_nonneg (q : Z) : 0 <= Zdigits2 q.
Proof. destruct q; cbn; lia. Qed.

(** The quotient that [SFdiv] hands to the rounding is aligned. *)
Lemma SFdiv_core_aligned (mx my : positive) (ex ey : Z) :
  let '(q, e', _) := SFdiv_core_binary prec emax (Zpos mx) ex (Zpos my) ey in
  0 <= q /\ e' <= fexp prec emax (Zdigits2 q + e').
Proof.
  unfold SFdiv_core_binary.
  set (d1 := Zdigits2 (Zpos mx)). set (d2 := Zdigits2 (Zpos my)).
  set (mu := d1 + ex - (d2 + ey)).
  set (e' := Z.min (fexp prec emax mu) (ex - ey)).
  set (s := ex - ey - e').
  assert (Hmu : mu = d1 + ex - (d2 + ey)) by reflexivity.
  assert (He' : e' = Z.min (Z.max (mu - 53) (-1074)) (ex - ey)) by reflexivity.
  assert (Hsd : s = ex - ey - e') by reflexivity.
  assert (Hs : 0 <= s) by lia.
  set (m' := match s with
             | 0 => Zpos mx
             | Zpos _ => Z.shiftl (Zpos mx) s
             | Zneg _ => 0
             end).
  assert (Hm' : m' = Zpos mx * 2 ^ s).
  { subst m'. clearbody s e' mu. destruct s as [|p|p]; try lia.
    apply Z.shiftl_mul_pow2. lia. }
  clearbody m' s e' mu.
  pose proof (Z.div_eucl_eq m' (Zpos my) ltac:(lia)) as Heq.
  pose proof (Z.mod_pos_bound m' (Zpos my) ltac:(lia)) as Hmod.
  unfold Z.modulo in Hmod.
  destruct (Z.div_eucl m' (Zpos my)) as [q r].
  pose proof (pow2_pos s Hs) as Hps.
  pose proof (Zdigits2_bounds (Zpos mx) ltac:(lia)) as [Hlo1 _].
  pose proof (Zdigits2_bounds (Zpos my) ltac:(lia)) as [_ Hhi2].
  pose proof (Zdigits2_pos (Zpos mx) ltac:(lia)) as Hd1.
  pose proof (Zdigits2_pos (Zpos my) ltac:(lia)) as Hd2.
  fold d1 in Hlo1, Hd1. fold d2 in Hhi2, Hd2.
  assert (Hq : 0 <= q) by nia.
  split; [assumption|].
  pose proof (Zdigits2_nonneg q) as Hdq.
  rewrite fexp_eq.
  destruct (Z.le_gt_cases d2 (d1 + s - 1)) as [Hbig|Hsmall].
  - (* the quotient has at least [d1 + s - d2] bits *)
    assert (Hql : 2 ^ (d1 + s - 1 - d2) <= q).
    { assert (H1 : 2 ^ (d1 + s - 1 - d2) * 2 ^ d2 <= m').
      { rewrite <- pow2_add by lia.
        replace (d1 + s - 1 - d2 + d2) with (d1 - 1 + s) by lia.
        rewrite pow2_add by lia. rewrite Hm'. nia. }
      pose proof (pow2_pos (d1 + s - 1 - d2) ltac:(lia)).
      nia. }
    pose proof (Zdigits2_lower q (d1 + s - 1 - d2) ltac:(lia) Hql). lia.
  - lia.
Qed.

Lemma div_valid (x y : float) :
  valid_binary prec emax (SFdiv prec emax x y) = true.
Proof.
  destruct x as [sx|sx| |sx mx ex]; destruct y as [sy|sy| |sy my ey];
    cbn [SFdiv]; try reflexivity.
  pose proof (SFdiv_core_aligned mx my ex ey) as H.
  destruct (SFdiv_core_binary prec emax (Zpos mx) ex (Zpos my) ey) as [[q e'] l].
  destruct H as [Hq Hpre]. apply binary_round_aux_valid; assumption.
Qed.

End Operations.

End F64Facts.

(** ** The loop, one sample at a time *)

Section Loop.

Context {frame gray : Type} `{Env frame gray}.

Variable cap : capture frame.
Variable output_path : string.
Variable interval : Z.
Variable total_frames : Z.
Variable fps : float.

Lemma judge_qualifies (s : shape) (g : gray) (r : rect) :
  qualifies s g r = match judge s r (eyes_of g r) with Found => true | _ => false end.
Proof.
  unfold qualifies, judge, size_gate.
  destruct (F64.ltb (area_ratio s r) MIN_FACE_SIZE);
    destruct (2 <=? eyes_of g r)%nat;
    destruct (score_gate (face_total s r)); reflexivity.
Qed.

Lemma check_faces_find (s : shape) (g : gray) (faces : list rect) :
  check_faces s g faces = find (qualifies s g) faces.
Proof.
  induction faces as [|r rest IH]; simpl; [reflexivity|].
  rewrite judge_qualifies.
  destruct (judge s r (eyes_of g r)); auto.
Qed.

Lemma check_faces_nil (s : shape) (g : gray) : check_faces s g [] = None.
Proof. reflexivity. Qed.

Lemma scan_stop (fuel : nat) (t : Z) (st : state frame) :
  stops total_frames fps t = true ->
  scan cap output_path interval total_frames fps (S fuel) t st
  = Some (Returned false, release st).
Proof.
  unfold stops. intros Hs. simpl.
  destruct (F64.int_ltb t (duration total_frames fps)); simpl in Hs; [|reflexivity].
  destruct (frame_index fps t) as [idx|]; [|discriminate].
  rewrite Hs. reflexivity.
Qed.

Lemma scan_raise (fuel : nat) (t : Z) (st : state frame) :
  F64.int_ltb t (duration total_frames fps) = true ->
  frame_index fps t = None ->
  scan cap output_path interval total_frames fps (S fuel) t st = Some (Raised, st).
Proof. intros Hd Hi. simpl. rewrite Hd, Hi. reflexivity. Qed.

Lemma scan_skip (fuel : nat) (t : Z) (st : state frame) :
  in_range total_frames fps t = true ->
  selection_at cap fps t = None ->
  scan cap output_path interval total_frames fps (S fuel) t st
  = scan cap output_path interval total_frames fps fuel (t + interval)
      (skip cap fps t st).
Proof.
  unfold in_range, selection_at, skip. intros Hr Hn.
  apply andb_prop in Hr. destruct Hr as [Hd Hi]. simpl. rewrite Hd.
  destruct (frame_index fps t) as [idx|]; [|discriminate].
  apply Z.ltb_lt in Hi.
  destruct (Z.leb_spec total_frames idx) as [Hle|_]; [lia|].
  destruct (read cap idx) as [f|]; [|reflexivity].
  destruct (check_faces (frame_shape f) (to_gray f) (face_cascade (to_gray f)))
    as [r|] eqn:Hc; [discriminate|].
  destruct (List.length (face_cascade (to_gray f)) =? 0)%nat; reflexivity.
Qed.

Lemma scan_hit (fuel : nat) (t : Z) (st : state frame) (idx : Z) (f : frame)
    (r : rect) :
  in_range total_frames fps t = true ->
  selection_at cap fps t = Some (idx, f, r) ->
  scan cap output_path interval total_frames fps (S fuel) t st
  = Some (save_thumbnail output_path f (idx, r) (checked (seek idx st))).
Proof.
  unfold in_range, selection_at. intros Hr Hn.
  apply andb_prop in Hr. destruct Hr as [Hd Hi]. simpl. rewrite Hd.
  destruct (frame_index fps t) as [i|]; [|discriminate].
  apply Z.ltb_lt in Hi.
  destruct (Z.leb_spec total_frames i) as [Hle|_]; [lia|].
  destruct (read cap i) as [f'|]; [|discriminate].
  destruct (check_faces (frame_shape f') (to_gray f') (face_cascade (to_gray f')))
    as [r'|] eqn:Hc; [|discriminate].
  injection Hn as -> -> ->.
  destruct (face_cascade (to_gray f)) as [|x l] eqn:Hf; [discriminate|].
  reflexivity.
Qed.

(** Every sample is exactly one of: end of the loop, exception, in range. *)
Lemma sample_cases (t : Z) :
  stops total_frames fps t = true
  \/ (F64.int_ltb t (duration total_frames fps) = true /\ frame_index fps t = None)
  \/ in_range total_frames fps t = true.
Proof.
  unfold stops, in_range.
  destruct (F64.int_ltb t (duration total_frames fps)); simpl; [|auto].
  destruct (frame_index fps t) as [idx|]; [|auto].
  destruct (Z.leb_spec total_frames idx); [auto|].
  right; right. apply Z.ltb_lt. assumption.
Qed.

(** More fuel never changes an answer. *)
Lemma scan_fuel_mono (fuel : nat) :
  forall (t : Z) (st : state frame) (res : outcome * state frame) (extra : nat),
    scan cap output_path interval total_frames fps fuel t st = Some res ->
    scan cap output_path interval total_frames fps (fuel + extra) t st = Some res.
Proof.
  induction fuel as [|fuel IH]; intros t st res extra Hs; [discriminate|].
  destruct (sample_cases t) as [Hstop|[[Hd Hi]|Hin]].
  - rewrite scan_stop in Hs by assumption. simpl Nat.add.
    rewrite scan_stop by assumption. assumption.
  - rewrite scan_raise in Hs by assumption. simpl Nat.add.
    rewrite scan_raise by assumption. assumption.
  - destruct (selection_at cap fps t) as [[[idx f] r]|] eqn:Hsel.
    + rewrite (scan_hit _ _ _ idx f r) in Hs by assumption. simpl Nat.add.
      rewrite (scan_hit _ _ _ idx f r) by assumption. assumption.
    + rewrite scan_skip in Hs by assumption. simpl Nat.add.
      rewrite scan_skip by assumption. apply IH. assumption.
Qed.

End Loop.

(** ** Runs of the loop *)

Section Runs.

Context {frame gray : Type} `{Env frame gray}.

Variable cap : capture frame.
Variable output_path : string.
Variables start_time interval : Z.
Variable total_frames : Z.
Variable fps : float.

Local Abbreviation t_ := (sample_time start_time interval).
Local Abbreviation scan_ := (scan cap output_path interval total_frames fps).

Lemma sample_time_S (k : nat) : t_ (S k) = t_ k + interval.
Proof. unfold sample_time. lia. Qed.

Lemma sample_time_0 : t_ O = start_time.
Proof. unfold sample_time. lia. Qed.

(** [k] samples without a selection are [k] turns of the loop. *)
Lemma scan_skips (k : nat) :
  forall (fuel : nat) (st : state frame),
    (forall j, (j < k)%nat ->
               in_range total_frames fps (t_ j) = true
               /\ selection_at cap fps (t_ j) = None) ->
    scan_ (k + fuel)%nat start_time st
    = scan_ fuel (t_ k) (skips cap fps start_time interval k st).
Proof.
  induction k as [|k IH]; intros fuel st Hk.
  - rewrite sample_time_0. reflexivity.
  - replace (S k + fuel)%nat with (k + S fuel)%nat by lia.
    rewrite IH by (intros j Hj; apply Hk; lia).
    destruct (Hk k) as [Hin Hsel]; [lia|].
    rewrite scan_skip by assumption.
    rewrite sample_time_S. reflexivity.
Qed.

Lemma skip_keeps (t : Z) (st : state frame) :
  files (skip cap fps t st) = files st
  /\ found (skip cap fps t st) = found st
  /\ cap_open (skip cap fps t st) = cap_open st
  /\ releases (skip cap fps t st) = releases st.
Proof.
  unfold skip. destruct (frame_index fps t) as [idx|]; [|auto].
  destruct (read cap idx); simpl; auto.
Qed.

Lemma skips_keeps (k : nat) (st : state frame) :
  files (skips cap fps start_time interval k st) = files st
  /\ found (skips cap fps start_time interval k st) = found st
  /\ cap_open (skips cap fps start_time interval k st) = cap_open st
  /\ releases (skips cap fps start_time interval k st) = releases st.
Proof.
  induction k as [|k IH]; simpl; [auto|].
  destruct (skip_keeps (t_ k) (skips cap fps start_time interval k st))
    as (-> & -> & -> & ->). exact IH.
Qed.

Lemma seeks_skip (t idx : Z) (st : state frame) :
  frame_index fps t = Some idx ->
  seeks (skip cap fps t st) = seeks st ++ [idx].
Proof.
  unfold skip. intros ->. destruct (read cap idx); reflexivity.
Qed.

Lemma save_thumbnail_post (t idx : Z) (f : frame) (r : rect) (st0 st : state frame) :
  in_range total_frames fps t = true ->
  selection_at cap fps t = Some (idx, f, r) ->
  files st = files st0 -> found st = found st0 ->
  cap_open st = cap_open st0 -> releases st = releases st0 ->
  scan_post cap output_path total_frames fps st0 (save_thumbnail output_path f (idx, r) st).
Proof.
  intros Hin Hsel Hf Hfo Hc Hr. unfold save_thumbnail, scan_post.
  cbn zeta.
  destruct (target_height (frame_shape f)) as [th|] eqn:Hth.
  2:{ cbn [fst snd report files cap_open releases found].
      repeat split; try assumption.
      right. exists t, idx, f, r. auto. }
  destruct (resize_raises f target_width th) eqn:Hrs.
  { cbn [fst snd report files cap_open releases found].
    repeat split; try assumption.
    right. exists t, idx, f, r. repeat split; try assumption.
    right. exists th. auto. }
  destruct (cv2_imwrite output_path (Resize f target_width th)
              [IMWRITE_JPEG_QUALITY; jpeg_quality]) as [wrote|] eqn:Hw.
  2:{ cbn [fst snd report files cap_open releases found].
      repeat split; try assumption.
      right. exists t, idx, f, r. repeat split; try assumption.
      right. exists th. auto. }
  cbn [fst snd]. exists t, idx, f, r, th, wrote.
  repeat (split; [assumption|]).
  destruct wrote; cbn [release imwrite report files cap_open releases found];
    rewrite Hf, Hr; try rewrite app_nil_r; auto.
Qed.

Lemma scan_inv (fuel : nat) :
  forall (t : Z) (st0 st : state frame) (res : outcome * state frame),
    files st = files st0 -> found st = found st0 ->
    cap_open st = cap_open st0 -> releases st = releases st0 ->
    scan_ fuel t st = Some res ->
    scan_post cap output_path total_frames fps st0 res.
Proof.
  induction fuel as [|fuel IH]; intros t st0 st res Hf Hfo Hc Hr Hs; [discriminate|].
  destruct (sample_cases total_frames fps t) as [Hstop|[[Hd Hi]|Hin]].
  - rewrite scan_stop in Hs by assumption. injection Hs as <-.
    unfold scan_post; simpl. auto.
  - rewrite scan_raise in Hs by assumption. injection Hs as <-.
    unfold scan_post; simpl. auto.
  - destruct (selection_at cap fps t) as [[[idx f] r]|] eqn:Hsel.
    + rewrite (scan_hit _ _ _ _ _ _ _ _ idx f r) in Hs by assumption.
      injection Hs as <-.
      apply (save_thumbnail_post t); simpl; assumption.
    + rewrite scan_skip in Hs by assumption.
      destruct (skip_keeps t st) as (Hf' & Hfo' & Hc' & Hr').
      apply (IH (t + interval) st0 (skip cap fps t st)); congruence.
Qed.

Lemma int_ltb_ceiling (x : float) (n : Z) :
  F64.is_finite x = true -> F64.int_ltb n x = true -> n < F64.ceiling x.
Proof.
  destruct x as [s|s| |s m e]; cbn [F64.is_finite F64.int_ltb F64.ceiling];
    try discriminate; intros _ Hlt.
  - apply Z.ltb_lt in Hlt. lia.
  - assert (Hp : forall p, 1 <= 2 ^ Zpos p)
      by (intros p; apply (Z.pow_le_mono_r 2 0); lia).
    destruct e as [|p|p]; apply Z.ltb_lt in Hlt;
      destruct s; cbn [cond_Zopp Z.abs] in *;
      try specialize (Hp p); try rewrite Z.pow_0_r in *; nia.
Qed.

(** Without a selection and without an exception the loop ends, and ends
    with [False]. *)
Lemma scan_exhausts (n : nat) :
  forall (t : Z) (st : state frame),
    0 < interval ->
    F64.is_finite (duration total_frames fps) = true ->
    F64.ceiling (duration total_frames fps) - t <= Z.of_nat n * interval ->
    (forall j : nat,
        F64.int_ltb (t + Z.of_nat j * interval) (duration total_frames fps) = true ->
        frame_index fps (t + Z.of_nat j * interval) <> None) ->
    (forall j : nat, selection_at cap fps (t + Z.of_nat j * interval) = None) ->
    exists st', scan_ (S n) t st = Some (Returned false, st').
Proof.
  induction n as [|n IH]; intros t st Hi Hfin Hb Hraise Hnone.
  - exists (release st). apply scan_stop. unfold stops.
    destruct (F64.int_ltb t (duration total_frames fps)) eqn:Hlt; [|reflexivity].
    apply int_ltb_ceiling in Hlt; [lia|assumption].
  - assert (Ht : t + Z.of_nat 0 * interval = t) by lia.
    destruct (sample_cases total_frames fps t) as [Hstop|[[Hd Hx]|Hin]].
    + exists (release st). apply scan_stop. assumption.
    + exfalso. apply (Hraise O); rewrite Ht; assumption.
    + rewrite scan_skip by (try assumption; rewrite <- Ht; apply Hnone).
      assert (Hj : forall j, t + interval + Z.of_nat j * interval
                             = t + Z.of_nat (S j) * interval) by (intros j; lia).
      apply IH; try assumption.
      * lia.
      * intros j. rewrite Hj. apply Hraise.
      * intros j. rewrite Hj. apply Hnone.
Qed.

End Runs.

(** ** The selector as a whole *)

Section Claims.

Context {frame gray : Type} `{Env frame gray}.


Lemma selection_at_Some (cap : capture frame) (fps : float) (t idx : Z)
    (f : frame) (r : rect) :
  selection_at cap fps t = Some (idx, f, r) <->
  frame_index fps t = Some idx /\ read cap idx = Some f
  /\ find (qualifies (frame_shape f) (to_gray f)) (face_cascade (to_gray f)) = Some r.
Proof.
  unfold selection_at. split.
  - destruct (frame_index fps t) as [i|]; [|discriminate].
    destruct (read cap i) as [f'|] eqn:Hread; [|discriminate].
    rewrite check_faces_find.
    destruct (find _ _) as [r'|] eqn:Hfind; [|discriminate].
    intros [= <- <- <-]. auto.
  - intros (-> & -> & Hfind). rewrite check_faces_find, Hfind. reflexivity.
Qed.

Lemma selection_at_None (cap : capture frame) (fps : float) (t : Z) :
  selection_at cap fps t = None <->
  forall idx f r,
    frame_index fps t = Some idx -> read cap idx = Some f ->
    In r (face_cascade (to_gray f)) ->
    qualifies (frame_shape f) (to_gray f) r = false.
Proof.
  unfold selection_at. split.
  - intros Hn idx f r Hi Hr Hin. rewrite Hi, Hr, check_faces_find in Hn.
    destruct (find _ _) eqn:Hfind; [discriminate|].
    apply (find_none _ _ Hfind). assumption.
  - intros Hq. destruct (frame_index fps t) as [idx|]; [|reflexivity].
    destruct (read cap idx) as [f|] eqn:Hread; [|reflexivity].
    rewrite check_faces_find.
    destruct (find _ _) as [r|] eqn:Hfind; [|reflexivity].
    apply find_some in Hfind. destruct Hfind as [Hin Hr].
    rewrite (Hq idx f r eq_refl Hread Hin) in Hr. discriminate.
Qed.

Lemma detect_opened (fuel : nat) (video_path output_path : string)
    (start_time interval total_frames : Z) :
  isOpened (VideoCapture video_path) = true ->
  F64.to_int (CAP_PROP_FRAME_COUNT (VideoCapture video_path)) = Some total_frames ->
  detect_best_face_frame fuel video_path output_path start_time interval
  = scan (VideoCapture video_path) output_path interval total_frames
      (CAP_PROP_FPS (VideoCapture video_path)) fuel start_time
      (opened (VideoCapture video_path)).
Proof.
  intros Ho Hn. unfold detect_best_face_frame. rewrite Ho, Hn. reflexivity.
Qed.

(** What any finished call has done, by outcome. *)
Lemma detect_post (fuel : nat) (video_path output_path : string)
    (start_time interval : Z) (o : outcome) (st : state frame) :
  detect_best_face_frame fuel video_path output_path start_time interval
  = Some (o, st) ->
  (isOpened (VideoCapture video_path) = false
   /\ o = Returned false /\ st = opened (VideoCapture video_path))
  \/ (isOpened (VideoCapture video_path) = true
      /\ F64.to_int (CAP_PROP_FRAME_COUNT (VideoCapture video_path)) = None
      /\ o = Raised /\ st = opened (VideoCapture video_path))
  \/ (isOpened (VideoCapture video_path) = true
      /\ exists total_frames,
          F64.to_int (CAP_PROP_FRAME_COUNT (VideoCapture video_path))
          = Some total_frames
          /\ scan_post (VideoCapture video_path) output_path total_frames
               (CAP_PROP_FPS (VideoCapture video_path))
               (opened (VideoCapture video_path)) (o, st)).
Proof.
  unfold detect_best_face_frame.
  destruct (isOpened (VideoCapture video_path)) eqn:Ho; simpl.
  - destruct (F64.to_int (CAP_PROP_FRAME_COUNT (VideoCapture video_path)))
      as [n|] eqn:Hn.
    + intros Hs. right; right. split; [reflexivity|]. exists n. split; [reflexivity|].
      eapply scan_inv; [| | | |exact Hs]; reflexivity.
    + intros [= <- <-]. right; left. auto.
  - intros [= <- <-]. left. auto.
Qed.

Lemma detect_fuel_mono (fuel extra : nat) (video_path output_path : string)
    (start_time interval : Z) (res : outcome * state frame) :
  detect_best_face_frame fuel video_path output_path start_time interval = Some res ->
  detect_best_face_frame (fuel + extra) video_path output_path start_time interval
  = Some res.
Proof.
  unfold detect_best_face_frame.
  destruct (isOpened (VideoCapture video_path)); simpl; [|auto].
  destruct (F64.to_int (CAP_PROP_FRAME_COUNT (VideoCapture video_path))); [|auto].
  apply scan_fuel_mono.
Qed.

(** C10.  The selector is deterministic: with the decoder and the cascades
    as functions of their inputs, two runs on the same video, output path,
    start time and interval that both finish give the same boolean, the same
    selected frame index and face, and the same written file, however long
    each was allowed to run. *)
Theorem detect_best_face_frame_deterministic
    (fuel1 fuel2 : nat) (video_path output_path : string)
    (start_time interval : Z) (o1 o2 : outcome) (st1 st2 : state frame) :
  detect_best_face_frame fuel1 video_path output_path start_time interval
  = Some (o1, st1) ->
  detect_best_face_frame fuel2 video_path output_path start_time interval
  = Some (o2, st2) ->
  o1 = o2 /\ found st1 = found st2 /\ files st1 = files st2 /\ st1 = st2.
Proof.
  intros H1 H2.
  assert (Heq : Some (o1, st1) = Some (o2, st2)).
  { destruct (Nat.le_ge_cases fuel1 fuel2) as [Hle|Hle].
    - apply (detect_fuel_mono _ (fuel2 - fuel1)) in H1.
      replace (fuel1 + (fuel2 - fuel1))%nat with fuel2 in H1 by lia.
      congruence.
    - apply (detect_fuel_mono _ (fuel1 - fuel2)) in H2.
      replace (fuel2 + (fuel1 - fuel2))%nat with fuel1 in H2 by lia.
      congruence. }
  injection Heq as -> ->. auto.
Qed.


End Claims.

Section Selection.

Context {frame gray : Type} `{Env frame gray}.

Variables video_path output_path : string.
Variables start_time interval : Z.

Local Abbreviation cap := (VideoCapture video_path).
Local Abbreviation fps := (CAP_PROP_FPS (VideoCapture video_path)).
Local Abbreviation t_ := (sample_time start_time interval).

(** The run that selects at the [k]-th sample, all earlier samples being
    in range and without a selection. *)
Lemma detect_selects (k : nat) (total_frames idx th : Z) (f : frame) (r : rect) :
  isOpened cap = true ->
  F64.to_int (CAP_PROP_FRAME_COUNT cap) = Some total_frames ->
  (forall j, (j <= k)%nat -> in_range total_frames fps (t_ j) = true) ->
  (forall j, (j < k)%nat -> selection_at cap fps (t_ j) = None) ->
  selection_at cap fps (t_ k) = Some (idx, f, r) ->
  target_height (frame_shape f) = Some th ->
  resize_raises f target_width th = false ->
  cv2_imwrite output_path (Resize f target_width th)
    [IMWRITE_JPEG_QUALITY; jpeg_quality] = Some true ->
  forall fuel, (k < fuel)%nat ->
    exists st,
      detect_best_face_frame fuel video_path output_path start_time interval
      = Some (Returned true, st)
      /\ files st = [Imwrite output_path (Resize f target_width th)
                       [IMWRITE_JPEG_QUALITY; jpeg_quality]]
      /\ found st = Some (idx, r)
      /\ cap_open st = false.
Proof.
  intros Ho Hn Hin Hnone Hsel Hth Hrs Hw fuel Hfuel.
  rewrite (detect_opened _ _ _ _ _ total_frames) by assumption.
  replace fuel with (k + S (fuel - S k))%nat by lia.
  rewrite scan_skips by (intros j Hj; split; [apply Hin; lia|apply Hnone; lia]).
  rewrite (scan_hit _ _ _ _ _ _ _ _ idx f r) by (try apply Hin; auto).
  unfold save_thumbnail. cbn zeta. rewrite Hth, Hrs, Hw.
  eexists. split; [reflexivity|]. simpl.
  destruct (skips_keeps cap start_time interval fps k (opened cap))
    as (Hf & Hfo & _).
  rewrite Hf. simpl. auto.
Qed.


End Selection.

Section Outcomes.

Context {frame gray : Type} `{Env frame gray}.

Variables video_path output_path : string.
Variables start_time interval : Z.

Local Abbreviation cap := (VideoCapture video_path).
Local Abbreviation fps := (CAP_PROP_FPS (VideoCapture video_path)).
Local Abbreviation t_ := (sample_time start_time interval).

(** C2, as the code has it.  When the scan selects a face in the frame [f]
    decoded at index [idx], and [cv2.resize] and [cv2.imwrite] succeed on the
    thumbnail ([cv2.resize] does not raise, [cv2.imwrite] returns [True]), it
    writes exactly one file, to [output_path], with the JPEG quality
    parameter 85: the colour frame [f] itself (not its grayscale copy)
    resized to width 320 and height [int(height * (320 / width))], the
    binary64 product truncated toward zero; it then releases the capture and
    returns [True]. *)
Theorem thumbnail_of_selected_frame
    (k : nat) (total_frames idx th : Z) (f : frame) (r : rect) :
  isOpened cap = true ->
  F64.to_int (CAP_PROP_FRAME_COUNT cap) = Some total_frames ->
  (forall j, (j <= k)%nat -> in_range total_frames fps (t_ j) = true) ->
  (forall j, (j < k)%nat -> selection_at cap fps (t_ j) = None) ->
  frame_index fps (t_ k) = Some idx ->
  read cap idx = Some f ->
  check_faces (frame_shape f) (to_gray f) (face_cascade (to_gray f)) = Some r ->
  width (frame_shape f) <> 0 ->
  F64.to_int (F64.mul (F64.of_int (height (frame_shape f)))
                (F64.div (F64.of_int 320) (F64.of_int (width (frame_shape f)))))
  = Some th ->
  resize_raises f 320 th = false ->
  cv2_imwrite output_path (Resize f 320 th) [IMWRITE_JPEG_QUALITY; 85]
  = Some true ->
  forall fuel, (k < fuel)%nat ->
    exists st,
      detect_best_face_frame fuel video_path output_path start_time interval
      = Some (Returned true, st)
      /\ files st = [Imwrite output_path (Resize f 320 th) [IMWRITE_JPEG_QUALITY; 85]]
      /\ cap_open st = false.
Proof.
  intros Ho Hn Hin Hnone Hidx Hread Hcheck Hw Hth Hrs Hwr fuel Hfuel.
  destruct (detect_selects video_path output_path start_time interval
              k total_frames idx th f r) with (fuel := fuel)
    as (st & Hrun & Hfiles & _ & Hc); auto.
  - unfold selection_at. rewrite Hidx, Hread, Hcheck. reflexivity.
  - unfold target_height. apply Z.eqb_neq in Hw. rewrite Hw. exact Hth.
  - exists st. auto.
Qed.

(** A file is written on the success path only. *)
Lemma written_only_on_success (fuel : nat) (o : outcome) (st : state frame) :
  detect_best_face_frame fuel video_path output_path start_time interval
  = Some (o, st) ->
  o <> Returned true -> files st = [].
Proof.
  intros Hd Ho. apply detect_post in Hd.
  destruct Hd as [(_ & _ & ->)|[(_ & _ & _ & ->)|(_ & n & _ & Hp)]];
    try reflexivity.
  unfold scan_post in Hp. cbn [fst snd] in Hp.
  destruct o as [[|]|]; [congruence| |]; destruct Hp as (-> & _); reflexivity.
Qed.

(** C8.  When no sampled frame shows a face that meets all three
    conditions, the selector returns [False] and has written no file
    (for a positive interval, a finite duration and frame indices that can
    be computed); and in any run at all, a file is written only when the
    selector returns [True]. *)
Theorem no_qualifying_face_no_file (total_frames : Z) :
  isOpened cap = true ->
  F64.to_int (CAP_PROP_FRAME_COUNT cap) = Some total_frames ->
  0 < interval ->
  F64.is_finite (duration total_frames fps) = true ->
  (forall k, F64.int_ltb (t_ k) (duration total_frames fps) = true ->
             frame_index fps (t_ k) <> None) ->
  (forall k idx f r,
      frame_index fps (t_ k) = Some idx -> read cap idx = Some f ->
      In r (face_cascade (to_gray f)) ->
      size_gate (area_ratio (frame_shape f) r)
      && (2 <=? eyes_of (to_gray f) r)%nat
      && score_gate (face_total (frame_shape f) r) = false) ->
  (exists fuel0, forall fuel, (fuel0 <= fuel)%nat ->
     exists st,
       detect_best_face_frame fuel video_path output_path start_time interval
       = Some (Returned false, st)
       /\ files st = [])
  /\ (forall fuel o st,
        detect_best_face_frame fuel video_path output_path start_time interval
        = Some (o, st) ->
        o <> Returned true -> files st = []).
Proof.
  intros Ho Hn Hi Hfin Hraise Hnone. split.
  - set (n := Z.to_nat
                ((F64.ceiling (duration total_frames fps) - start_time) / interval + 1)).
    destruct (scan_exhausts cap output_path interval total_frames fps n
                start_time (opened cap)) as (st & Hs); auto.
    + unfold n.
      pose proof (Z.mul_succ_div_gt
                    (F64.ceiling (duration total_frames fps) - start_time)
                    interval Hi) as Hd.
      destruct (Z.le_gt_cases 0
                  ((F64.ceiling (duration total_frames fps) - start_time) / interval + 1))
        as [Hpos|Hneg].
      * rewrite Z2Nat.id by assumption. unfold Z.succ in Hd. nia.
      * replace (Z.to_nat _) with 0%nat by lia. unfold Z.succ in Hd. nia.
    + intros j. apply selection_at_None. intros idx f r.
      apply (Hnone j).
    + exists (S n). intros fuel Hfuel. exists st.
      rewrite (detect_opened _ _ _ _ _ total_frames) by assumption.
      replace fuel with (S n + (fuel - S n))%nat by lia.
      rewrite (scan_fuel_mono _ _ _ _ _ _ _ _ _ _ Hs).
      split; [reflexivity|].
      apply (written_only_on_success (S n) (Returned false)); [|discriminate].
      rewrite (detect_opened _ _ _ _ _ total_frames) by assumption. exact Hs.
  - intros fuel o st. apply written_only_on_success.
Qed.

(** C9.  The duration is [total_frames / fps] when the reported frame rate
    is positive and 0 otherwise; so for a video whose frame rate is 0 (or
    not a positive number) and a nonnegative start time the loop condition
    fails at once: no frame is looked at, nothing is written and the
    selector returns [False]. *)
Theorem zero_fps_returns_false (total_frames : Z) :
  isOpened cap = true ->
  F64.to_int (CAP_PROP_FRAME_COUNT cap) = Some total_frames ->
  F64.int_ltb 0 fps = false ->
  0 <= start_time ->
  (forall n x, F64.int_ltb 0 x = true ->
               duration n x = F64.div (F64.of_int n) x)
  /\ duration total_frames fps = F64.of_int 0
  /\ F64.int_ltb start_time (duration total_frames fps) = false
  /\ forall fuel,
       detect_best_face_frame (S fuel) video_path output_path start_time interval
       = Some (Returned false, release (opened cap))
       /\ seeks (release (opened cap)) = []
       /\ frames_checked (release (opened cap)) = 0
       /\ files (release (opened cap)) = [].
Proof.
  intros Ho Hn Hfps Hstart.
  assert (Hd : duration total_frames fps = F64.of_int 0)
    by (unfold duration; rewrite Hfps; reflexivity).
  assert (Hlt : F64.int_ltb start_time (duration total_frames fps) = false).
  { rewrite Hd. cbn. apply Z.ltb_ge. assumption. }
  split; [|split; [exact Hd|split; [exact Hlt|]]].
  - intros n x Hx. unfold duration. rewrite Hx. reflexivity.
  - intros fuel. rewrite (detect_opened _ _ _ _ _ total_frames) by assumption.
    rewrite scan_stop by (unfold stops; rewrite Hlt; reflexivity).
    simpl. auto.
Qed.

End Outcomes.

(** ** Gate boundaries *)

(** The constant that stands for the literal [0.09] is the correctly rounded
    quotient of 9 by 100, and [0.09 * 300] is exactly 27 in binary64. *)
Lemma MIN_FACE_SIZE_literal :
  F64.div (F64.of_int 9) (F64.of_int 100) = MIN_FACE_SIZE
  /\ F64.valid MIN_FACE_SIZE = true
  /\ F64.mul MIN_FACE_SIZE (F64.of_int 300) = F64.of_int 27.
Proof. repeat split. Qed.

Lemma eqb_not_ltb (x y : float) : F64.eqb x y = true -> F64.ltb x y = false.
Proof.
  unfold F64.eqb, F64.ltb, SFeqb, SFltb.
  destruct (SFcompare x y) as [[| |]|]; intros; try discriminate; reflexivity.
Qed.

Lemma eqb_min_score_leb (total : float) :
  F64.eqb total (F64.of_int MIN_SCORE) = true ->
  F64.leb (F64.of_int MIN_SCORE) total = true.
Proof.
  change (F64.of_int MIN_SCORE) with (S754_finite false 5277655813324800 (-46)).
  unfold F64.eqb, F64.leb, SFeqb, SFleb.
  destruct total as [s|s| |s m e]; try discriminate;
    destruct s; cbn [SFcompare]; try discriminate.
  rewrite (Z.compare_antisym e (-46)).
  destruct (e ?= -46); cbn [CompOpp]; try discriminate.
  pose proof (Pos.compare_cont_antisym m 5277655813324800 Eq) as Ha.
  cbn [CompOpp] in Ha. rewrite <- Ha.
  destruct (Pos.compare_cont Eq m 5277655813324800); cbn [CompOpp];
    try discriminate.
  reflexivity.
Qed.

(** C6.  Both gates let their boundary value pass: a face whose area ratio
    equals 0.09 is not rejected as too small (the rejection is exactly
    [area_ratio < 0.09]), and a total score equal to 75 is accepted (the
    acceptance is exactly [total_score >= 75]). *)
Theorem gates_are_inclusive :
  (forall ar, F64.eqb ar MIN_FACE_SIZE = true -> size_gate ar = true)
  /\ (forall ar, size_gate ar = false <-> F64.ltb ar MIN_FACE_SIZE = true)
  /\ (forall s r eyes, F64.eqb (area_ratio s r) MIN_FACE_SIZE = true ->
                       judge s r eyes <> TooSmall)
  /\ (forall total, F64.eqb total (F64.of_int MIN_SCORE) = true ->
                    score_gate total = true)
  /\ (forall total, score_gate total = true <->
                    F64.leb (F64.of_int MIN_SCORE) total = true)
  /\ (forall s r eyes,
         size_gate (area_ratio s r) = true -> (2 <= eyes)%nat ->
         F64.eqb (face_total s r) (F64.of_int MIN_SCORE) = true ->
         judge s r eyes = Found).
Proof.
  repeat split.
  - intros ar Hq. unfold size_gate. rewrite (eqb_not_ltb _ _ Hq). reflexivity.
  - unfold size_gate. destruct (F64.ltb ar MIN_FACE_SIZE); [reflexivity|discriminate].
  - unfold size_gate. intros ->. reflexivity.
  - intros s r eyes Hq. unfold judge. rewrite (eqb_not_ltb _ _ Hq).
    destruct (2 <=? eyes)%nat; [|discriminate].
    destruct (score_gate (face_total s r)); discriminate.
  - intros total Hq. apply eqb_min_score_leb. assumption.
  - intros Hg. exact Hg.
  - intros Hg. exact Hg.
  - intros s r eyes Hsize Heyes Hq. unfold judge, size_gate in *.
    destruct (F64.ltb (area_ratio s r) MIN_FACE_SIZE); [discriminate|].
    apply Nat.leb_le in Heyes. rewrite Heyes.
    unfold score_gate. rewrite (eqb_min_score_leb _ Hq). reflexivity.
Qed.

(** ** The thirty-second scenario *)

Section ThirtySeconds.

Context {frame gray : Type} `{Env frame gray}.

Variables program video_path output_path : string.

Local Abbreviation cap := (VideoCapture video_path).
Local Abbreviation fps30 := (F64.of_int 30).

Lemma thirty_in_range (j : nat) :
  (j < 10)%nat ->
  in_range 900 fps30 (sample_time 10 2 j) = true
  /\ frame_index fps30 (sample_time 10 2 j) = Some (sample_time 10 2 j * 30).
Proof.
  intros Hj.
  do 10 (destruct j as [|j]; [vm_compute; auto|]). lia.
Qed.

(** C5.  For a video of 900 frames at 30 frames per second (30 seconds),
    [start_time = 10] and [interval = 2], the scan samples exactly the
    timestamps 10, 12, ..., 28: ten samples, each with frame index
    [int(t * fps)] below the frame count, and the next timestamp, 30, ends
    the loop.  If none of the ten frames yields a selected face, the
    selector returns [False] after seeking all ten and the process exits
    with status 1. *)
Theorem thirty_second_scan :
  isOpened cap = true ->
  CAP_PROP_FRAME_COUNT cap = F64.of_int 900 ->
  CAP_PROP_FPS cap = F64.of_int 30 ->
  (forall j, (j < 10)%nat -> selection_at cap fps30 (sample_time 10 2 j) = None) ->
  duration 900 fps30 = F64.of_int 30
  /\ map (sample_time 10 2) (seq 0 10) = [10; 12; 14; 16; 18; 20; 22; 24; 26; 28]
  /\ (forall j, (j < 10)%nat ->
        in_range 900 fps30 (sample_time 10 2 j) = true
        /\ frame_index fps30 (sample_time 10 2 j) = Some (sample_time 10 2 j * 30)
        /\ sample_time 10 2 j * 30 < 900)
  /\ stops 900 fps30 (sample_time 10 2 10) = true
  /\ forall fuel, (11 <= fuel)%nat ->
       exists st,
         detect_best_face_frame fuel video_path output_path 10 2
         = Some (Returned false, st)
         /\ seeks st = [300; 360; 420; 480; 540; 600; 660; 720; 780; 840]
         /\ files st = []
         /\ main fuel [program; video_path; output_path] = Some 1.
Proof.
  intros Ho Hn Hf Hnone.
  split; [vm_compute; reflexivity|].
  split; [reflexivity|].
  split.
  { intros j Hj. destruct (thirty_in_range j Hj) as [Hr Hi].
    repeat split; try assumption. unfold sample_time. lia. }
  split; [vm_compute; reflexivity|].
  intros fuel Hfuel.
  assert (Hrun : detect_best_face_frame fuel video_path output_path 10 2
                 = Some (Returned false,
                         release (skips cap fps30 10 2 10 (opened cap)))).
  { rewrite (detect_opened _ _ _ _ _ 900) by (rewrite ?Hn; auto).
    rewrite Hf.
    replace fuel with (10 + S (fuel - 11))%nat by lia.
    rewrite scan_skips
      by (intros j Hj; split; [apply thirty_in_range; assumption|auto]).
    apply scan_stop. vm_compute. reflexivity. }
  eexists. split; [exact Hrun|].
  split.
  { cbn [seeks release skips].
    repeat (erewrite seeks_skip
              by (apply thirty_in_range; repeat constructor)).
    reflexivity. }
  split.
  { cbn [files release].
    destruct (skips_keeps cap 10 2 fps30 10 (opened cap)) as (-> & _).
    reflexivity. }
  unfold main. fold cap.
  destruct (path_exists video_path); simpl; [|reflexivity].
  change default_start_time with 10. change default_interval with 2.
  rewrite Hrun. reflexivity.
Qed.

End ThirtySeconds.

(** ** The claims on concrete videos *)

Module BenchFacts.

Import Bench.

Lemma face_video_in_range (j : nat) :
  (j <= 2)%nat ->
  in_range 900 (CAP_PROP_FPS (@VideoCapture _ _ world "face.mp4"))
    (sample_time 10 2 j) = true.
Proof.
  intros Hj. do 3 (destruct j as [|j]; [vm_compute; reflexivity|]). lia.
Defined.





(** The face that is selected need not be the best one of its frame: in
    [rival.mp4] the first face is taken although the second scores higher. *)
Lemma first_face_not_best_face :
  exists st,
    run 20 "rival.mp4" = Some (Returned true, st)
    /\ found st = Some (300, off_centre_face)
    /\ @qualifies _ _ world (Shape 1080 1920)
         (@to_gray _ _ world rival_frame) centred_face = true
    /\ F64.ltb (face_total (Shape 1080 1920) off_centre_face)
               (face_total (Shape 1080 1920) centred_face) = true.
Proof. eexists. vm_compute. auto. Qed.

(** The thumbnail of the 1280x723 frame is 180 pixels high, where rounding
    [723 * 320 / 1280 = 180.75] gives 181. *)
Lemma thumbnail_height_not_rounded :
  exists st w,
    run 20 "face.mp4" = Some (Returned true, st)
    /\ files st = [w]
    /\ resized_from (written_image w) = face_frame
    /\ image_height (written_image w) = 180
    /\ rounded_height (shape_of (resized_from (written_image w))) = 181
    /\ image_height (written_image w)
       <> rounded_height (shape_of (resized_from (written_image w))).
Proof.
  eexists. eexists. vm_compute. repeat split; try reflexivity. discriminate.
Qed.

(** The truncation is that of the binary64 product: for a 15680x49 frame the
    exact quotient [49 * 320 / 15680] is 1, the product computed in binary64
    is just below 1, and the height is 0. *)
Lemma truncation_is_in_binary64 :
  target_height (Shape 49 15680) = Some 0 /\ 49 * 320 / 15680 = 1.
Proof. split; reflexivity. Qed.

Lemma thumbnail_of_selected_frame_witness :
  exists st,
    @detect_best_face_frame _ _ world 20 "face.mp4" "thumb.jpg" 10 2
    = Some (Returned true, st)
    /\ files st = [Imwrite "thumb.jpg" (Resize face_frame 320 180)
                     [IMWRITE_JPEG_QUALITY; 85]]
    /\ cap_open st = false.
Proof.
  apply (@thumbnail_of_selected_frame _ _ world "face.mp4" "thumb.jpg" 10 2
           2%nat 900 420 180 face_frame big_face).
  - reflexivity.
  - vm_compute. reflexivity.
  - exact face_video_in_range.
  - intros j Hj. do 2 (destruct j as [|j]; [vm_compute; reflexivity|]). lia.
  - vm_compute. reflexivity.
  - reflexivity.
  - vm_compute. reflexivity.
  - vm_compute. discriminate.
  - vm_compute. reflexivity.
  - reflexivity.
  - reflexivity.
  - lia.
Defined.


Lemma detect_best_face_frame_deterministic_witness :
  @detect_best_face_frame _ _ world 20 "face.mp4" "thumb.jpg" 10 2
  = Some (Returned true, face_final)
  /\ @detect_best_face_frame _ _ world 40 "face.mp4" "thumb.jpg" 10 2
     = Some (Returned true, face_final)
  /\ Returned true = Returned true
  /\ found face_final = found face_final
  /\ files face_final = files face_final
  /\ face_final = face_final.
Proof.
  assert (H1 : @detect_best_face_frame _ _ world 20 "face.mp4" "thumb.jpg" 10 2
               = Some (Returned true, face_final)) by (vm_compute; reflexivity).
  assert (H2 : @detect_best_face_frame _ _ world 40 "face.mp4" "thumb.jpg" 10 2
               = Some (Returned true, face_final)) by (vm_compute; reflexivity).
  split; [exact H1|]. split; [exact H2|].
  exact (@detect_best_face_frame_deterministic _ _ world _ _ _ _ _ _ _ _ _ _ H1 H2).
Defined.

Lemma plain_video_below_30 (k : nat) :
  F64.int_ltb (sample_time 10 2 k) (duration 900 (F64.of_int 30)) = true ->
  (k < 10)%nat.
Proof.
  change (duration 900 (F64.of_int 30))
    with (S754_finite false 8444249301319680 (-48)).
  cbn [F64.int_ltb cond_Zopp]. intros Hlt. apply Z.ltb_lt in Hlt.
  unfold sample_time in Hlt.
  change (2 ^ 48) with 281474976710656 in Hlt. lia.
Defined.

Lemma plain_video_no_selection (t : Z) :
  @selection_at _ _ world plain_video (F64.of_int 30) t = None.
Proof.
  unfold selection_at. destruct (frame_index (F64.of_int 30) t); reflexivity.
Defined.

Lemma no_qualifying_face_no_file_witness :
  (exists fuel0, forall fuel, (fuel0 <= fuel)%nat ->
     exists st,
       @detect_best_face_frame _ _ world fuel "plain.mp4" "thumb.jpg" 10 2
       = Some (Returned false, st)
       /\ files st = [])
  /\ (forall fuel o st,
        @detect_best_face_frame _ _ world fuel "plain.mp4" "thumb.jpg" 10 2
        = Some (o, st) ->
        o <> Returned true -> files st = []).
Proof.
  apply (@no_qualifying_face_no_file _ _ world "plain.mp4" "thumb.jpg" 10 2 900).
  - reflexivity.
  - vm_compute. reflexivity.
  - lia.
  - vm_compute. reflexivity.
  - intros k Hlt. apply plain_video_below_30 in Hlt.
    do 10 (destruct k as [|k]; [vm_compute; discriminate|]). lia.
  - intros k idx f r _ Hr. cbn in Hr. injection Hr as <-.
    intros Hin. destruct Hin.
Defined.

Lemma zero_fps_returns_false_witness :
  (forall n x, F64.int_ltb 0 x = true ->
               duration n x = F64.div (F64.of_int n) x)
  /\ duration 900 (F64.of_int 0) = F64.of_int 0
  /\ F64.int_ltb 10 (duration 900 (F64.of_int 0)) = false
  /\ forall fuel,
       @detect_best_face_frame _ _ world (S fuel) "nofps.mp4" "thumb.jpg" 10 2
       = Some (Returned false, release (opened no_fps_video))
       /\ seeks (release (opened no_fps_video)) = []
       /\ frames_checked (release (opened no_fps_video)) = 0
       /\ files (release (opened no_fps_video)) = [].
Proof.
  apply (@zero_fps_returns_false _ _ world "nofps.mp4" "thumb.jpg" 10 2 900).
  - reflexivity.
  - vm_compute. reflexivity.
  - vm_compute. reflexivity.
  - lia.
Defined.

Lemma thirty_second_scan_witness :
  duration 900 (F64.of_int 30) = F64.of_int 30
  /\ map (sample_time 10 2) (seq 0 10) = [10; 12; 14; 16; 18; 20; 22; 24; 26; 28]
  /\ (forall j, (j < 10)%nat ->
        in_range 900 (F64.of_int 30) (sample_time 10 2 j) = true
        /\ frame_index (F64.of_int 30) (sample_time 10 2 j)
           = Some (sample_time 10 2 j * 30)
        /\ sample_time 10 2 j * 30 < 900)
  /\ stops 900 (F64.of_int 30) (sample_time 10 2 10) = true
  /\ forall fuel, (11 <= fuel)%nat ->
       exists st,
         @detect_best_face_frame _ _ world fuel "plain.mp4" "thumb.jpg" 10 2
         = Some (Returned false, st)
         /\ seeks st = [300; 360; 420; 480; 540; 600; 660; 720; 780; 840]
         /\ files st = []
         /\ @main _ _ world fuel ["prog"; "plain.mp4"; "thumb.jpg"]%string = Some 1.
Proof.
  apply (@thirty_second_scan _ _ world "prog" "plain.mp4" "thumb.jpg").
  - reflexivity.
  - reflexivity.
  - reflexivity.
  - intros j _. apply plain_video_no_selection.
Defined.

Lemma gates_are_inclusive_witness :
  F64.eqb (area_ratio (Shape 100 100) edge_face) MIN_FACE_SIZE = true
  /\ size_gate (area_ratio (Shape 100 100) edge_face) = true
  /\ judge (Shape 100 100) edge_face 2 <> TooSmall
  /\ F64.eqb (F64.of_int 75) (F64.of_int MIN_SCORE) = true
  /\ score_gate (F64.of_int 75) = true.
Proof.
  destruct gates_are_inclusive as (Hsize & _ & Hjudge & Hscore & _).
  assert (Ha : F64.eqb (area_ratio (Shape 100 100) edge_face) MIN_FACE_SIZE = true)
    by (vm_compute; reflexivity).
  assert (Hb : F64.eqb (F64.of_int 75) (F64.of_int MIN_SCORE) = true)
    by (vm_compute; reflexivity).
  split; [exact Ha|]. split; [exact (Hsize _ Ha)|].
  split; [exact (Hjudge _ _ 2%nat Ha)|]. split; [exact Hb|exact (Hscore _ Hb)].
Defined.

End BenchFacts.

(** ** The scores *)

Module ScoreFacts.

Import F64 F64Facts.

Lemma ltb_rank (x y : float) :
  valid x = true -> valid y = true -> is_nan x = false -> is_nan y = false ->
  F64.ltb x y = (rank x <? rank y).
Proof.
  intros Hx Hy Hnx Hny. unfold F64.ltb, SFltb.
  rewrite (SFcompare_rank x y Hx Hy Hnx Hny). unfold Z.ltb.
  destruct (rank x ?= rank y); reflexivity.
Qed.

Lemma leb_rank (x y : float) :
  valid x = true -> valid y = true -> is_nan x = false -> is_nan y = false ->
  F64.leb x y = (rank x <=? rank y).
Proof.
  intros Hx Hy Hnx Hny. unfold F64.leb, SFleb.
  rewrite (SFcompare_rank x y Hx Hy Hnx Hny). unfold Z.leb.
  destruct (rank x ?= rank y); reflexivity.
Qed.

Lemma compare_not_nan (x y : float) (c : comparison) :
  SFcompare x y = Some c -> is_nan x = false /\ is_nan y = false.
Proof.
  destruct x as [sx|sx| |sx mx ex]; destruct y as [sy|sy| |sy my ey];
    cbn [SFcompare is_nan]; intros Hc; try discriminate; auto.
Qed.

Lemma ltb_not_nan (x y : float) :
  F64.ltb x y = true -> is_nan x = false /\ is_nan y = false.
Proof.
  unfold F64.ltb, SFltb. destruct (SFcompare x y) as [c|] eqn:Hc; [|discriminate].
  intros _. apply (compare_not_nan x y c Hc).
Qed.

Lemma leb_not_nan (x y : float) :
  F64.leb x y = true -> is_nan x = false /\ is_nan y = false.
Proof.
  unfold F64.leb, SFleb. destruct (SFcompare x y) as [c|] eqn:Hc; [|discriminate].
  intros _. apply (compare_not_nan x y c Hc).
Qed.

Lemma ltb_nan_l (y : float) : F64.ltb S754_nan y = false.
Proof. reflexivity. Qed.

Lemma mul_nan_l (y : float) : F64.mul S754_nan y = S754_nan.
Proof. reflexivity. Qed.

(** Multiplication by the integers 300, 20 and 2. *)
Lemma mul_int_spec (x : float) (C : Z) (mc : positive) (ec : Z) :
  F64.of_int C = S754_finite false mc ec ->
  ec < 0 -> 2 ^ 52 <= Zpos mc -> 0 < C -> Zpos mc = C * 2 ^ (- ec) ->
  valid x = true -> is_nan x = false ->
  valid (F64.mul x (F64.of_int C)) = true
  /\ is_nan (F64.mul x (F64.of_int C)) = false
  /\ rank (F64.mul x (F64.of_int C)) = round_rank (rank x * C).
Proof.
  intros -> Hec Hmc HC Hc Hx Hnx.
  exact (mul_const_spec x mc ec C Hx Hnx Hec Hmc HC Hc).
Qed.

Lemma mul_300_spec (x : float) :
  valid x = true -> is_nan x = false ->
  valid (F64.mul x (F64.of_int 300)) = true
  /\ is_nan (F64.mul x (F64.of_int 300)) = false
  /\ rank (F64.mul x (F64.of_int 300)) = round_rank (rank x * 300).
Proof.
  apply (mul_int_spec x 300 5277655813324800 (-44)); try reflexivity; try lia; intro Hc; vm_compute in Hc; discriminate.
Qed.

Lemma mul_2_spec (x : float) :
  valid x = true -> is_nan x = false ->
  valid (F64.mul x (F64.of_int 2)) = true
  /\ is_nan (F64.mul x (F64.of_int 2)) = false
  /\ rank (F64.mul x (F64.of_int 2)) = round_rank (rank x * 2).
Proof.
  apply (mul_int_spec x 2 4503599627370496 (-51)); try reflexivity; try lia; intro Hc; vm_compute in Hc; discriminate.
Qed.

Lemma mul_20_spec (x : float) :
  valid x = true -> is_nan x = false ->
  valid (F64.mul (F64.of_int 20) x) = true
  /\ is_nan (F64.mul (F64.of_int 20) x) = false
  /\ rank (F64.mul (F64.of_int 20) x) = round_rank (rank x * 20).
Proof.
  unfold F64.mul. rewrite SFmul_comm.
  apply (mul_int_spec x 20 5629499534213120 (-48)); try reflexivity; try lia; intro Hc; vm_compute in Hc; discriminate.
Qed.

Lemma mul_20_valid (x : float) : valid (F64.mul (F64.of_int 20) x) = true.
Proof.
  unfold F64.mul. rewrite SFmul_comm.
  change (F64.of_int 20) with (S754_finite false 5629499534213120 (-48)).
  apply mul_const_valid. intro Hc. vm_compute in Hc. discriminate.
Qed.

Lemma mul_300_valid (x : float) : valid (F64.mul x (F64.of_int 300)) = true.
Proof.
  change (F64.of_int 300) with (S754_finite false 5277655813324800 (-44)).
  apply mul_const_valid. intro Hc. vm_compute in Hc. discriminate.
Qed.

Lemma rank_nonneg_finite (m : positive) (e : Z) :
  0 <= rank (S754_finite false m e).
Proof.
  cbn [rank cond_Zopp]. pose proof (Z.pow_nonneg 2 (e + 1074) ltac:(lia)). lia.
Qed.

(** The position score is a valid number and never negative. *)
Lemma position_score_range (cd : float) :
  valid (position_score cd) = true
  /\ is_nan (position_score cd) = false
  /\ 0 <= rank (position_score cd).
Proof.
  unfold position_score.
  set (v := F64.mul (F64.of_int 20)
              (F64.sub (F64.of_int 1) (F64.mul cd (F64.of_int 2)))).
  pose proof (mul_20_valid (F64.sub (F64.of_int 1) (F64.mul cd (F64.of_int 2))))
    as Hv. fold v in Hv.
  destruct (F64.ltb (F64.of_int 0) v) eqn:Hlt.
  - destruct (ltb_not_nan _ _ Hlt) as [_ Hn].
    rewrite ltb_rank in Hlt by auto. apply Z.ltb_lt in Hlt.
    change (rank (F64.of_int 0)) with 0 in Hlt. repeat split; try assumption. lia.
  - repeat split. cbn. lia.
Qed.

(** Size scores lie between 0 and 30 for nonnegative area ratios, and grow
    with the area ratio. *)
Lemma size_score_mono (ar1 ar2 : float) :
  valid ar1 = true -> valid ar2 = true ->
  F64.leb (F64.of_int 0) ar1 = true -> F64.leb ar1 ar2 = true ->
  valid (size_score ar1) = true /\ valid (size_score ar2) = true
  /\ is_nan (size_score ar1) = false /\ is_nan (size_score ar2) = false
  /\ 0 <= rank (size_score ar1) <= rank (size_score ar2).
Proof.
  intros H1 H2 H0 H12.
  destruct (leb_not_nan _ _ H12) as [Hn1 Hn2].
  rewrite leb_rank in H0, H12 by auto.
  apply Z.leb_le in H0, H12. change (rank (F64.of_int 0)) with 0 in H0.
  destruct (mul_300_spec ar1 H1 Hn1) as (Hv1 & Hvn1 & Hr1).
  destruct (mul_300_spec ar2 H2 Hn2) as (Hv2 & Hvn2 & Hr2).
  assert (Hm : rank (F64.mul ar1 (F64.of_int 300))
               <= rank (F64.mul ar2 (F64.of_int 300))).
  { rewrite Hr1, Hr2. apply round_rank_mono. lia. }
  assert (Hp : 0 <= rank (F64.mul ar1 (F64.of_int 300))).
  { rewrite Hr1. change 0 with (round_rank 0). apply round_rank_mono. lia. }
  assert (H30 : 0 <= rank (F64.of_int 30)) by apply rank_nonneg_finite.
  unfold size_score.
  set (v1 := F64.mul ar1 (F64.of_int 300)) in *.
  set (v2 := F64.mul ar2 (F64.of_int 300)) in *.
  rewrite (ltb_rank v1), (ltb_rank v2) by auto.
  destruct (Z.ltb_spec (rank v1) (rank (F64.of_int 30)));
    destruct (Z.ltb_spec (rank v2) (rank (F64.of_int 30)));
    repeat split; auto; lia.
Qed.

(** Past the size gate the size score is at least 27. *)
Lemma size_score_ge_27 (ar : float) :
  valid ar = true -> size_gate ar = true ->
  valid (size_score ar) = true
  /\ is_nan (size_score ar) = false
  /\ rank (F64.of_int 27) <= rank (size_score ar).
Proof.
  intros Hv Hg. unfold size_gate in Hg. apply negb_true_iff in Hg.
  assert (H2730 : rank (F64.of_int 27) <= rank (F64.of_int 30)).
  { apply Z.leb_le. rewrite <- leb_rank by reflexivity. reflexivity. }
  destruct (is_nan ar) eqn:Hn.
  - destruct ar; try discriminate. unfold size_score.
    rewrite mul_nan_l, ltb_nan_l. auto.
  - rewrite ltb_rank in Hg by auto. apply Z.ltb_ge in Hg.
    destruct (mul_300_spec ar Hv Hn) as (Hv1 & Hvn1 & Hr1).
    destruct (mul_300_spec MIN_FACE_SIZE eq_refl eq_refl) as (_ & _ & Hr0).
    change (F64.mul MIN_FACE_SIZE (F64.of_int 300)) with (F64.of_int 27) in Hr0.
    assert (Hm : rank (F64.of_int 27) <= rank (F64.mul ar (F64.of_int 300))).
    { rewrite Hr0, Hr1. apply round_rank_mono. lia. }
    unfold size_score. set (v := F64.mul ar (F64.of_int 300)) in *.
    rewrite (ltb_rank v) by auto.
    destruct (Z.ltb_spec (rank v) (rank (F64.of_int 30))); auto.
Qed.

(** The total score grows with the size score and with the position score. *)
Lemma total_score_mono (s1 s2 p1 p2 : float) :
  valid s1 = true -> valid s2 = true -> valid p1 = true -> valid p2 = true ->
  is_nan s1 = false -> is_nan s2 = false -> is_nan p1 = false -> is_nan p2 = false ->
  0 <= rank s1 <= rank s2 -> 0 <= rank p1 <= rank p2 ->
  valid (total_score s1 p1) = true /\ valid (total_score s2 p2) = true
  /\ is_nan (total_score s1 p1) = false /\ is_nan (total_score s2 p2) = false
  /\ rank (total_score s1 p1) <= rank (total_score s2 p2).
Proof.
  intros Hs1 Hs2 Hp1 Hp2 Ns1 Ns2 Np1 Np2 Hs Hp.
  pose proof big_lt_infinity as Hbig.
  assert (Hinf : forall x, 0 <= rank x -> not_neg_inf x = true)
    by (intros x Hx; apply not_neg_inf_rank; lia).
  destruct (add_spec s1 p1) as (Hv1 & Hn1 & Hr1); auto; try (apply Hinf; lia).
  destruct (add_spec s2 p2) as (Hv2 & Hn2 & Hr2); auto; try (apply Hinf; lia).
  assert (H1 : 0 <= rank (F64.add s1 p1)).
  { unfold F64.add. rewrite Hr1. change 0 with (round_rank 0).
    apply round_rank_mono. lia. }
  assert (H12 : rank (F64.add s1 p1) <= rank (F64.add s2 p2)).
  { unfold F64.add. rewrite Hr1, Hr2. apply round_rank_mono. lia. }
  unfold total_score.
  destruct (add_spec (F64.add s1 p1) (F64.of_int frontal_score))
    as (Hv1' & Hn1' & Hr1'); auto; try (apply Hinf; lia).
  destruct (add_spec (F64.add s2 p2) (F64.of_int frontal_score))
    as (Hv2' & Hn2' & Hr2'); auto; try (apply Hinf; lia).
  repeat split; auto.
  unfold F64.add in *. rewrite Hr1', Hr2'. apply round_rank_mono. lia.
Qed.

End ScoreFacts.

Section ScoreClaims.

Import F64 F64Facts ScoreFacts.

Lemma area_ratio_valid (s : shape) (r : rect) : valid (area_ratio s r) = true.
Proof. apply div_valid. Qed.

Lemma center_dist_valid (s : shape) (r : rect) : valid (center_dist s r) = true.
Proof. apply div_valid. Qed.

Lemma position_score_rank (cd : float) :
  valid cd = true -> is_nan cd = false ->
  rank (position_score cd)
  = Z.max 0 (round_rank
               (round_rank (rank (F64.of_int 1) - round_rank (rank cd * 2)) * 20)).
Proof.
  intros Hv Hn.
  destruct (mul_2_spec cd Hv Hn) as (Hv1 & Hn1 & Hr1).
  destruct (sub_spec (F64.of_int 1) (F64.mul cd (F64.of_int 2)))
    as (Hv2 & Hn2 & Hr2); auto.
  destruct (mul_20_spec _ Hv2 Hn2) as (Hv3 & Hn3 & Hr3).
  unfold position_score. unfold F64.sub in *.
  rewrite Hr2, Hr1 in Hr3. rewrite <- Hr3.
  set (v := F64.mul (F64.of_int 20)
              (SFsub prec emax (F64.of_int 1) (F64.mul cd (F64.of_int 2)))) in *.
  rewrite (ltb_rank (F64.of_int 0) v) by auto.
  change (rank (F64.of_int 0)) with 0.
  destruct (Z.ltb_spec 0 (rank v)); [lia|].
  change (rank (F64.of_int 0)) with 0. lia.
Qed.

(** C3.  A face that passes the size gate ([area_ratio >= 0.09]) and has at
    least two eyes has a total score of at least 77: its size score is at
    least 27, its position score at least 0, and 50 is added.  The score
    gate ([total_score >= 75]) therefore accepts it, and the "score too low"
    branch of the loop is never taken, whatever the frame and the face. *)
Theorem score_gate_never_rejects (s : shape) (r : rect) (eyes : nat) :
  (size_gate (area_ratio s r) = true -> (2 <= eyes)%nat ->
   F64.leb (F64.of_int 27) (size_score (area_ratio s r)) = true
   /\ F64.leb (F64.of_int 0) (position_score (center_dist s r)) = true
   /\ F64.leb (F64.of_int 77) (face_total s r) = true
   /\ score_gate (face_total s r) = true
   /\ judge s r eyes = Found)
  /\ judge s r eyes <> ScoreTooLow.
Proof.
  assert (Hmain : size_gate (area_ratio s r) = true ->
                  F64.leb (F64.of_int 27) (size_score (area_ratio s r)) = true
                  /\ F64.leb (F64.of_int 0) (position_score (center_dist s r)) = true
                  /\ F64.leb (F64.of_int 77) (face_total s r) = true
                  /\ score_gate (face_total s r) = true).
  { intros Hg.
    destruct (size_score_ge_27 _ (area_ratio_valid s r) Hg) as (Hvs & Hns & Hrs).
    destruct (position_score_range (center_dist s r)) as (Hvp & Hnp & Hrp).
    assert (H27 : 0 <= rank (F64.of_int 27)) by apply rank_nonneg_finite.
    destruct (total_score_mono (F64.of_int 27) (size_score (area_ratio s r))
                (F64.of_int 0) (position_score (center_dist s r)))
      as (_ & Hvt & _ & Hnt & Hrt); auto.
    { change (rank (F64.of_int 0)) with 0. lia. }
    change (total_score (F64.of_int 27) (F64.of_int 0)) with (F64.of_int 77) in Hrt.
    assert (H7577 : rank (F64.of_int 75) <= rank (F64.of_int 77)).
    { apply Z.leb_le. rewrite <- leb_rank by reflexivity. reflexivity. }
    unfold face_total, score_gate.
    rewrite !leb_rank by auto.
    change (rank (F64.of_int 0)) with 0. change MIN_SCORE with 75.
    repeat split; apply Z.leb_le; lia. }
  split.
  - intros Hg He. destruct (Hmain Hg) as (H1 & H2 & H3 & H4).
    repeat split; try assumption.
    unfold judge. unfold size_gate in Hg. apply negb_true_iff in Hg.
    rewrite Hg. apply Nat.leb_le in He. rewrite He, H4. reflexivity.
  - unfold judge.
    destruct (F64.ltb (area_ratio s r) MIN_FACE_SIZE) eqn:Hlt; [discriminate|].
    destruct (2 <=? eyes)%nat; [|discriminate].
    destruct Hmain as (_ & _ & _ & ->); [|discriminate].
    unfold size_gate. rewrite Hlt. reflexivity.
Qed.

(** C7.  With position and eyes unchanged, a larger area ratio never gives a
    smaller size score or total score; a larger centre distance never gives a
    larger position score; and the position score is never below 0.  The
    numbers compared are the valid binary64 values that the script computes
    (area ratios are nonnegative). *)
Theorem scores_are_monotone :
  (forall ar1 ar2 cd,
      valid ar1 = true -> valid ar2 = true ->
      F64.leb (F64.of_int 0) ar1 = true -> F64.leb ar1 ar2 = true ->
      F64.leb (size_score ar1) (size_score ar2) = true
      /\ F64.leb (total_score (size_score ar1) (position_score cd))
                 (total_score (size_score ar2) (position_score cd)) = true)
  /\ (forall cd1 cd2,
         valid cd1 = true -> valid cd2 = true -> F64.leb cd1 cd2 = true ->
         F64.leb (position_score cd2) (position_score cd1) = true)
  /\ (forall cd, F64.leb (F64.of_int 0) (position_score cd) = true)
  /\ (forall s r, valid (area_ratio s r) = true /\ valid (center_dist s r) = true).
Proof.
  split; [|split; [|split]].
  - intros ar1 ar2 cd H1 H2 H0 H12.
    destruct (size_score_mono ar1 ar2 H1 H2 H0 H12)
      as (Hv1 & Hv2 & Hn1 & Hn2 & Hr).
    destruct (position_score_range cd) as (Hvp & Hnp & Hrp).
    destruct (total_score_mono (size_score ar1) (size_score ar2)
                (position_score cd) (position_score cd))
      as (Hvt1 & Hvt2 & Hnt1 & Hnt2 & Hrt); auto; try lia.
    rewrite !leb_rank by auto. split; apply Z.leb_le; lia.
  - intros cd1 cd2 H1 H2 H12.
    destruct (leb_not_nan _ _ H12) as [Hn1 Hn2].
    rewrite leb_rank in H12 by auto. apply Z.leb_le in H12.
    destruct (position_score_range cd1) as (Hv1 & Hp1 & _).
    destruct (position_score_range cd2) as (Hv2 & Hp2 & _).
    rewrite leb_rank by auto. apply Z.leb_le.
    rewrite !position_score_rank by auto.
    apply Z.max_le_compat_l. apply round_rank_mono.
    apply Z.mul_le_mono_nonneg_r; [lia|]. apply round_rank_mono.
    assert (round_rank (rank cd1 * 2) <= round_rank (rank cd2 * 2))
      by (apply round_rank_mono; lia).
    lia.
  - intros cd. destruct (position_score_range cd) as (Hv & Hn & Hr).
    rewrite leb_rank by auto. apply Z.leb_le.
    change (rank (F64.of_int 0)) with 0. assumption.
  - intros s r. split; [apply area_ratio_valid|apply center_dist_valid].
Qed.

End ScoreClaims.

Module ScoreWitnesses.

Import Bench.

(** The face of [edge_frame] sits exactly on the size gate; its score is 97. *)
Lemma score_gate_never_rejects_witness :
  size_gate (area_ratio (Shape 100 100) edge_face) = true
  /\ (2 <= 2)%nat
  /\ F64.leb (F64.of_int 27) (size_score (area_ratio (Shape 100 100) edge_face)) = true
  /\ F64.leb (F64.of_int 77) (face_total (Shape 100 100) edge_face) = true
  /\ score_gate (face_total (Shape 100 100) edge_face) = true
  /\ judge (Shape 100 100) edge_face 2 = Found
  /\ judge (Shape 100 100) edge_face 2 <> ScoreTooLow.
Proof.
  assert (Hg : size_gate (area_ratio (Shape 100 100) edge_face) = true)
    by (vm_compute; reflexivity).
  destruct (score_gate_never_rejects (Shape 100 100) edge_face 2) as [Hin Hout].
  destruct (Hin Hg (le_n 2)) as (H27 & _ & H77 & Hs & Hj).
  split; [exact Hg|]. split; [exact (le_n 2)|].
  repeat split; assumption.
Defined.

(** The two faces of [rival_frame]: the second is larger and nearer to the
    centre than the first. *)
Lemma scores_are_monotone_witness :
  let s := Shape 1080 1920 in
  let ar1 := area_ratio s off_centre_face in
  let ar2 := area_ratio s centred_face in
  let cd1 := center_dist s centred_face in
  let cd2 := center_dist s off_centre_face in
  (F64.valid ar1 = true /\ F64.valid ar2 = true
   /\ F64.leb (F64.of_int 0) ar1 = true /\ F64.leb ar1 ar2 = true
   /\ F64.leb (size_score ar1) (size_score ar2) = true
   /\ F64.leb (total_score (size_score ar1) (position_score cd2))
              (total_score (size_score ar2) (position_score cd2)) = true)
  /\ (F64.valid cd1 = true /\ F64.valid cd2 = true /\ F64.leb cd1 cd2 = true
      /\ F64.leb (position_score cd2) (position_score cd1) = true)
  /\ F64.leb (F64.of_int 0) (position_score cd2) = true.
Proof.
  intros s ar1 ar2 cd1 cd2.
  destruct scores_are_monotone as (Hsize & Hpos & Hzero & _).
  assert (Ha1 : F64.valid ar1 = true) by (vm_compute; reflexivity).
  assert (Ha2 : F64.valid ar2 = true) by (vm_compute; reflexivity).
  assert (Ha0 : F64.leb (F64.of_int 0) ar1 = true) by (vm_compute; reflexivity).
  assert (Ha12 : F64.leb ar1 ar2 = true) by (vm_compute; reflexivity).
  assert (Hc1 : F64.valid cd1 = true) by (vm_compute; reflexivity).
  assert (Hc2 : F64.valid cd2 = true) by (vm_compute; reflexivity).
  assert (Hc12 : F64.leb cd1 cd2 = true) by (vm_compute; reflexivity).
  destruct (Hsize ar1 ar2 cd2 Ha1 Ha2 Ha0 Ha12) as [Hs Ht].
  pose proof (Hpos cd1 cd2 Hc1 Hc2 Hc12) as Hp.
  pose proof (Hzero cd2) as Hz.
  repeat split; assumption.
Defined.

End ScoreWitnesses.

(** * Further properties of the selector *)

(** ** The shape of every finished scan *)

Section Decomposition.

Context {frame gray : Type} `{Env frame gray}.

Variable cap : capture frame.
Variable output_path : string.
Variable interval : Z.
Variable total_frames : Z.
Variable fps : float.

Lemma skips_shift (k : nat) (start_time : Z) (st : state frame) :
  skips cap fps (start_time + interval) interval k (skip cap fps start_time st)
  = skips cap fps start_time interval (S k) st.
Proof.
  induction k as [|k IH].
  - cbn [skips]. f_equal. unfold sample_time. lia.
  - cbn [skips] in *. rewrite IH. f_equal. unfold sample_time. lia.
Qed.

(** A finished scan is a number of samples without selection followed by
    exactly one of: the end of the loop, an exception, a selection. *)
Lemma scan_decompose (fuel : nat) :
  forall (start_time : Z) (st : state frame) (res : outcome * state frame),
    scan cap output_path interval total_frames fps fuel start_time st = Some res ->
    exists k : nat,
      (k < fuel)%nat
      /\ (forall j, (j < k)%nat ->
            in_range total_frames fps (sample_time start_time interval j) = true
            /\ selection_at cap fps (sample_time start_time interval j) = None)
      /\ (let t := sample_time start_time interval k in
          let stk := skips cap fps start_time interval k st in
          (stops total_frames fps t = true /\ res = (Returned false, release stk))
          \/ (F64.int_ltb t (duration total_frames fps) = true
              /\ frame_index fps t = None /\ res = (Raised, stk))
          \/ (in_range total_frames fps t = true
              /\ exists idx f r,
                  selection_at cap fps t = Some (idx, f, r)
                  /\ res = save_thumbnail output_path f (idx, r)
                             (checked (seek idx stk)))).
Proof.
  induction fuel as [|fuel IH]; intros start_time st res Hs; [discriminate|].
  assert (H0 : sample_time start_time interval 0 = start_time)
    by (unfold sample_time; lia).
  destruct (sample_cases total_frames fps start_time) as [Hstop|[[Hd Hi]|Hin]].
  - rewrite scan_stop in Hs by assumption. injection Hs as <-.
    exists O. split; [lia|]. split; [intros j Hj; lia|].
    cbn zeta. rewrite H0. left. auto.
  - rewrite scan_raise in Hs by assumption. injection Hs as <-.
    exists O. split; [lia|]. split; [intros j Hj; lia|].
    cbn zeta. rewrite H0. right; left. auto.
  - destruct (selection_at cap fps start_time) as [[[idx f] r]|] eqn:Hsel.
    + rewrite (scan_hit _ _ _ _ _ _ _ _ idx f r) in Hs by assumption.
      injection Hs as <-.
      exists O. split; [lia|]. split; [intros j Hj; lia|].
      cbn zeta. rewrite H0. right; right. split; [assumption|].
      exists idx, f, r. auto.
    + rewrite scan_skip in Hs by assumption.
      destruct (IH _ _ _ Hs) as (k & Hk & Hbefore & Hend).
      assert (Ht : forall j, sample_time (start_time + interval) interval j
                             = sample_time start_time interval (S j))
        by (intros j; unfold sample_time; lia).
      exists (S k). split; [lia|]. split.
      * intros [|j] Hj; [rewrite H0; auto|].
        rewrite <- Ht. apply Hbefore. lia.
      * cbn zeta in *. rewrite Ht, skips_shift in Hend. exact Hend.
Qed.

End Decomposition.

Module SignFacts.

Import F64 F64Facts ScoreFacts.

Lemma binary_round_aux_sign (s : bool) (m e : Z) (l : location) :
  match binary_round_aux prec emax s m e l with
  | S754_zero s' | S754_infinity s' | S754_finite s' _ _ => s' = s
  | S754_nan => True
  end.
Proof.
  unfold binary_round_aux.
  destruct (shr_fexp prec emax m e l) as [mrs' e'].
  destruct (shr_fexp prec emax _ e' loc_Exact) as [mrs'' e''].
  destruct (shr_m mrs''); [reflexivity| |exact I].
  destruct (e'' <=? emax - prec); reflexivity.
Qed.

Lemma binary_round_aux_nonneg (m e : Z) (l : location) :
  is_nonneg (binary_round_aux prec emax false m e l) = true.
Proof.
  pose proof (binary_round_aux_sign false m e l) as Hs.
  destruct (binary_round_aux prec emax false m e l); cbn [is_nonneg];
    try reflexivity; rewrite Hs; reflexivity.
Qed.

Lemma binary_normalize_nonneg (M e : Z) :
  0 <= M -> is_nonneg (binary_normalize prec emax M e false) = true.
Proof.
  intros HM. destruct M as [|p|p]; try lia; cbn [binary_normalize].
  - reflexivity.
  - unfold binary_round.
    destruct (shl_align p e _) as [mz ez]. apply binary_round_aux_nonneg.
Qed.

Lemma of_int_nonneg (n : Z) : 0 <= n -> is_nonneg (F64.of_int n) = true.
Proof. apply binary_normalize_nonneg. Qed.

Lemma positive_nonneg (x : float) : is_positive x = true -> is_nonneg x = true.
Proof. destruct x as [s|[|]| |[|] m e]; cbn; auto. Qed.

Lemma mul_nonneg (x y : float) :
  is_nonneg x = true -> is_nonneg y = true -> is_nonneg (F64.mul x y) = true.
Proof.
  unfold F64.mul.
  destruct x as [sx|sx| |sx mx ex]; destruct y as [sy|sy| |sy my ey];
    cbn [is_nonneg SFmul]; intros Hx Hy; try reflexivity;
    try (apply negb_true_iff in Hx; subst sx);
    try (apply negb_true_iff in Hy; subst sy); try reflexivity.
  apply binary_round_aux_nonneg.
Qed.

Lemma div_nonneg (x y : float) :
  is_nonneg x = true -> is_positive y = true -> is_nonneg (F64.div x y) = true.
Proof.
  unfold F64.div.
  destruct x as [sx|sx| |sx mx ex]; destruct y as [sy|[|]| |[|] my ey];
    cbn [is_nonneg is_positive SFdiv]; intros Hx Hy; try discriminate;
    try reflexivity;
    try (apply negb_true_iff in Hx; subst sx); try reflexivity.
  pose proof (binary_round_aux_nonneg) as Hn.
  destruct (SFdiv_core_binary prec emax (Zpos mx) ex (Zpos my) ey) as [[q e'] l].
  apply Hn.
Qed.

Lemma add_nonneg (x y : float) :
  is_nonneg x = true -> is_nonneg y = true -> is_nonneg (F64.add x y) = true.
Proof.
  unfold F64.add.
  destruct x as [sx|sx| |sx mx ex]; destruct y as [sy|sy| |sy my ey];
    cbn [is_nonneg SFadd]; intros Hx Hy; try reflexivity;
    try (apply negb_true_iff in Hx; subst sx);
    try (apply negb_true_iff in Hy; subst sy); try reflexivity.
  - destruct sx, sy; reflexivity.
  - apply binary_normalize_nonneg. cbn [cond_Zopp]. lia.
Qed.

Lemma abs_nonneg (x : float) : is_nonneg (F64.abs x) = true.
Proof. destruct x; reflexivity. Qed.

Lemma to_int_nonneg (x : float) (i : Z) :
  is_nonneg x = true -> F64.to_int x = Some i -> 0 <= i.
Proof.
  destruct x as [s|s| |s m e]; cbn [is_nonneg F64.to_int]; intros Hx Hi;
    try discriminate.
  - injection Hi as <-. lia.
  - apply negb_true_iff in Hx. subst s. injection Hi as <-.
    cbn [cond_Zopp]. unfold F64.trunc_mag. destruct e as [|p|p].
    + lia.
    + pose proof (Z.pow_nonneg 2 (Zpos p) ltac:(lia)). lia.
    + apply Z.shiftr_nonneg. lia.
Qed.

Lemma int_ltb_0_positive (x : float) :
  F64.int_ltb 0 x = true -> is_positive x = true.
Proof.
  destruct x as [s|[|]| |[|] m e]; cbn [F64.int_ltb is_positive negb];
    try discriminate; try reflexivity.
  intros Hlt. exfalso. destruct e as [|p|p]; apply Z.ltb_lt in Hlt;
    cbn [cond_Zopp] in Hlt.
  - lia.
  - pose proof (Z.pow_nonneg 2 (Zpos p) ltac:(lia)). lia.
  - lia.
Qed.

Lemma rank_pos_positive (x : float) : 0 < rank x -> is_positive x = true.
Proof.
  destruct big_lt_infinity as [Hb Hi].
  destruct x as [s|[|]| |[|] m e]; cbn [rank cond_Zopp is_positive];
    intros Hx; try reflexivity; exfalso.
  - lia.
  - lia.
  - lia.
  - pose proof (pow2_pos (e + 1074)) as Hp.
    destruct (Z_le_gt_dec 0 (e + 1074)) as [He|He].
    + specialize (Hp He).
      pose proof (Z.mul_pos_pos (Zpos m) (2 ^ (e + 1074)) ltac:(lia) Hp). lia.
    + rewrite Z.pow_neg_r in Hx by lia. lia.
Qed.

Lemma rank_of_int_1 : rank (F64.of_int 1) = 2 ^ 1074.
Proof.
  assert (H1 : F64.of_int 1 = S754_finite false 4503599627370496 (-52))
    by (vm_compute; reflexivity).
  rewrite H1. cbn [rank cond_Zopp].
  change (-52 + 1074) with 1022. change 1074 with (52 + 1022).
  rewrite (pow2_add 52 1022) by lia. reflexivity.
Qed.

Lemma of_int_positive (n : Z) : 0 < n -> is_positive (F64.of_int n) = true.
Proof.
  intros Hn. apply rank_pos_positive.
  destruct (binary_normalize_spec n 0 ltac:(lia)) as (_ & _ & Hr).
  destruct (binary_normalize_spec 1 0 ltac:(lia)) as (_ & _ & Hr1).
  pose proof rank_of_int_1 as H1.
  unfold F64.of_int in *. rewrite Hr. rewrite Hr1 in H1.
  pose proof (pow2_pos 1074 ltac:(lia)) as Hp.
  assert (Hle : round_rank (1 * 2 ^ (0 + 1074)) <= round_rank (n * 2 ^ (0 + 1074))).
  { apply round_rank_mono. apply Z.mul_le_mono_nonneg_r; [|lia].
    change (0 + 1074) with 1074. lia. }
  lia.
Qed.

(** The frame index of a nonnegative time is nonnegative. *)
Lemma frame_index_nonneg (fps : float) (t idx : Z) :
  0 <= t -> F64.int_ltb 0 fps = true -> frame_index fps t = Some idx -> 0 <= idx.
Proof.
  intros Ht Hf Hi. unfold frame_index in Hi.
  apply (to_int_nonneg _ _ (mul_nonneg _ _ (of_int_nonneg t Ht)
                              (positive_nonneg _ (int_ltb_0_positive _ Hf))) Hi).
Qed.

Lemma center_dist_nonneg (s : shape) (r : rect) :
  0 < width s -> 0 < height s -> is_nonneg (center_dist s r) = true.
Proof.
  intros Hw Hh. unfold center_dist.
  apply div_nonneg; [|apply of_int_positive; lia].
  apply add_nonneg; (apply div_nonneg; [apply abs_nonneg|apply of_int_positive; lia]).
Qed.

Lemma nonneg_rank (x : float) : is_nonneg x = true -> 0 <= rank x.
Proof.
  pose proof big_lt_infinity.
  destruct x as [s|s| |s m e]; cbn [is_nonneg rank]; intros Hx;
    try apply negb_true_iff in Hx; subst; cbn [cond_Zopp]; try lia.
Qed.

Lemma position_score_le_20 (cd : float) :
  valid cd = true -> is_nonneg cd = true ->
  rank (position_score cd) <= rank (F64.of_int 20).
Proof.
  intros Hv Hn.
  assert (H20 : 0 <= rank (F64.of_int 20)) by apply rank_nonneg_finite.
  destruct (is_nan cd) eqn:Hnan.
  - destruct cd; try discriminate Hnan. exact H20.
  - rewrite (position_score_rank cd Hv Hnan).
    pose proof (nonneg_rank cd Hn) as Hr.
    destruct (mul_20_spec (F64.of_int 1) eq_refl eq_refl) as (_ & _ & H1).
    change (F64.mul (F64.of_int 20) (F64.of_int 1)) with (F64.of_int 20) in H1.
    rewrite H1. apply Z.max_lub; [|apply round_rank_mono].
    + rewrite <- H1. exact H20.
    + apply Z.mul_le_mono_nonneg_r; [lia|].
      rewrite <- (round_rank_valid (F64.of_int 1) eq_refl) at 2.
      apply round_rank_mono.
      assert (0 <= round_rank (rank cd * 2)).
      { change 0 with (round_rank 0). apply round_rank_mono. lia. }
      lia.
Qed.

Lemma size_score_le_30 (ar : float) :
  valid (size_score ar) = true
  /\ is_nan (size_score ar) = false
  /\ rank (size_score ar) <= rank (F64.of_int 30).
Proof.
  unfold size_score.
  pose proof (mul_300_valid ar) as Hv.
  set (v := F64.mul ar (F64.of_int 300)) in *.
  destruct (F64.ltb v (F64.of_int 30)) eqn:Hlt.
  - destruct (ltb_not_nan _ _ Hlt) as [Hn _].
    rewrite ltb_rank in Hlt by auto. apply Z.ltb_lt in Hlt.
    repeat split; auto. lia.
  - repeat split; auto. lia.
Qed.

End SignFacts.


(** ** What every finished call has done *)

Section Finished.

Context {frame gray : Type} `{Env frame gray}.

Variables video_path output_path : string.
Variables start_time interval : Z.

Local Abbreviation cap := (VideoCapture video_path).
Local Abbreviation fps := (CAP_PROP_FPS (VideoCapture video_path)).
Local Abbreviation t_ := (sample_time start_time interval).

(** Lines 136-148 neither seek nor count. *)
Lemma save_thumbnail_keeps (p : string) (f : frame) (sel : Z * rect)
    (st : state frame) :
  seeks (snd (save_thumbnail p f sel st)) = seeks st
  /\ frames_checked (snd (save_thumbnail p f sel st)) = frames_checked st.
Proof.
  unfold save_thumbnail. cbn zeta.
  destruct (target_height (frame_shape f)) as [th|]; [|split; reflexivity].
  destruct (resize_raises f target_width th); [split; reflexivity|].
  destruct (cv2_imwrite p (Resize f target_width th)
              [IMWRITE_JPEG_QUALITY; jpeg_quality]) as [[|]|];
    split; reflexivity.
Qed.

Lemma in_range_index (total_frames : Z) (x : float) (t : Z) :
  in_range total_frames x t = true ->
  exists idx, frame_index x t = Some idx /\ idx < total_frames
              /\ F64.int_ltb t (duration total_frames x) = true.
Proof.
  unfold in_range. intros Hr. apply andb_prop in Hr. destruct Hr as [Hd Hi].
  destruct (frame_index x t) as [idx|]; [|discriminate].
  exists idx. apply Z.ltb_lt in Hi. auto.
Qed.

Lemma seeks_skips (total_frames : Z) (k : nat) (st : state frame) :
  (forall j, (j < k)%nat -> in_range total_frames fps (t_ j) = true) ->
  map Some (seeks (skips cap fps start_time interval k st))
  = map Some (seeks st) ++ map (fun j => frame_index fps (t_ j)) (seq 0 k).
Proof.
  induction k as [|k IH]; intros Hin.
  - cbn. rewrite app_nil_r. reflexivity.
  - cbn [skips].
    destruct (in_range_index _ _ _ (Hin k ltac:(lia))) as (idx & Hi & _).
    rewrite (seeks_skip _ _ _ idx) by assumption.
    rewrite map_app, IH by (intros j Hj; apply Hin; lia).
    rewrite seq_S, map_app, <- app_assoc. cbn [map Nat.add]. rewrite Hi.
    reflexivity.
Qed.

Lemma counted_skips (total_frames : Z) (k : nat) (st : state frame) :
  (forall j, (j < k)%nat -> in_range total_frames fps (t_ j) = true) ->
  counted cap st -> counted cap (skips cap fps start_time interval k st).
Proof.
  induction k as [|k IH]; intros Hin Hc; [exact Hc|].
  cbn [skips]. specialize (IH ltac:(intros j Hj; apply Hin; lia) Hc).
  destruct (in_range_index _ _ _ (Hin k ltac:(lia))) as (idx & Hi & _).
  unfold counted, skip in *. rewrite Hi.
  destruct (read cap idx) as [f|] eqn:Hr; cbn [checked seek seeks frames_checked];
    rewrite filter_app, length_app; cbn [filter]; unfold decodes at 2;
    rewrite Hr; cbn [List.length]; lia.
Qed.

Lemma finished_call_samples
    (fuel : nat) (total_frames : Z) (o : outcome) (st : state frame) :
  isOpened cap = true ->
  F64.to_int (CAP_PROP_FRAME_COUNT cap) = Some total_frames ->
  detect_best_face_frame fuel video_path output_path start_time interval
  = Some (o, st) ->
  exists n : nat,
    (n <= fuel)%nat
    /\ map Some (seeks st) = map (fun j => frame_index fps (t_ j)) (seq 0 n)
    /\ (forall j, (j < n)%nat -> in_range total_frames fps (t_ j) = true)
    /\ (forall idx, In idx (seeks st) -> idx < total_frames)
    /\ frames_checked st
       = Z.of_nat (List.length (filter (decodes cap) (seeks st)))
    /\ 0 <= frames_checked st <= Z.of_nat (List.length (seeks st)).
Proof.
  intros Ho Hn Hd. rewrite (detect_opened _ _ _ _ _ total_frames) in Hd by assumption.
  apply scan_decompose in Hd. destruct Hd as (k & Hk & Hbefore & Hend).
  cbn zeta in Hend.
  assert (Hin : forall j, (j < k)%nat -> in_range total_frames fps (t_ j) = true)
    by (intros j Hj; apply Hbefore; assumption).
  pose proof (seeks_skips total_frames k (opened cap) Hin) as Hseeks.
  pose proof (counted_skips total_frames k (opened cap) Hin eq_refl) as Hcount.
  cbn [opened seeks map app] in Hseeks.
  assert (Hfinal : exists n : nat,
             (n <= fuel)%nat
             /\ map Some (seeks st) = map (fun j => frame_index fps (t_ j)) (seq 0 n)
             /\ (forall j, (j < n)%nat -> in_range total_frames fps (t_ j) = true)
             /\ counted cap st).
  { destruct Hend as [[_ Hres]|[(_ & _ & Hres)|(Hr & idx & f & r & Hsel & Hres)]].
    - injection Hres as _ Hst. subst st. exists k.
      unfold counted in *. cbn [release seeks frames_checked].
      repeat split; auto. lia.
    - injection Hres as _ Hst. subst st. exists k. repeat split; auto. lia.
    - apply selection_at_Some in Hsel. destruct Hsel as (Hi & Hread & _).
      exists (S k).
      assert (Hs : map Some (seeks (checked (seek idx
                     (skips cap fps start_time interval k (opened cap)))))
                   = map (fun j => frame_index fps (t_ j)) (seq 0 (S k))).
      { cbn [checked seek seeks]. rewrite map_app, Hseeks, seq_S, map_app.
        cbn [map Nat.add]. rewrite Hi. reflexivity. }
      assert (Hc : counted cap (checked (seek idx
                     (skips cap fps start_time interval k (opened cap))))).
      { unfold counted in *. cbn [checked seek seeks frames_checked].
        rewrite filter_app, length_app. cbn [filter]. unfold decodes at 2.
        rewrite Hread. cbn [List.length]. lia. }
      assert (Hall : forall j, (j < S k)%nat ->
                               in_range total_frames fps (t_ j) = true).
      { intros j Hj. destruct (Nat.eq_dec j k) as [->|Hne]; [assumption|].
        apply Hin. lia. }
      destruct (save_thumbnail_keeps output_path f (idx, r)
                  (checked (seek idx
                     (skips cap fps start_time interval k (opened cap)))))
        as [Hks Hkc].
      rewrite <- Hres in Hks, Hkc. cbn [snd] in Hks, Hkc.
      unfold counted in *. rewrite Hks, Hkc.
      repeat split; auto; lia. }
  destruct Hfinal as (n & Hn' & Hs & Hall & Hc).
  exists n. split; [assumption|]. split; [assumption|]. split; [assumption|].
  assert (Hlt : forall idx, In idx (seeks st) -> idx < total_frames).
  { intros idx Hidx. apply (in_map Some) in Hidx. rewrite Hs in Hidx.
    apply in_map_iff in Hidx. destruct Hidx as (j & Hj & Hseq).
    apply in_seq in Hseq.
    destruct (in_range_index _ _ _ (Hall j ltac:(lia))) as (i & Hi & Hlt & _).
    congruence. }
  split; [assumption|]. split; [exact Hc|].
  rewrite Hc. pose proof (filter_length_le (decodes cap) (seeks st)). lia.
Qed.

(** X1.  The frames that a finished call has sought are those of the sample
    times [start_time], [start_time + interval], ... taken in order and
    without a gap, and every one of them lies before the end of the video. *)
Theorem sought_frames_are_consecutive_samples
    (fuel : nat) (total_frames : Z) (o : outcome) (st : state frame) :
  isOpened cap = true ->
  F64.to_int (CAP_PROP_FRAME_COUNT cap) = Some total_frames ->
  detect_best_face_frame fuel video_path output_path start_time interval
  = Some (o, st) ->
  exists n : nat,
    map Some (seeks st) = map (fun j => frame_index fps (t_ j)) (seq 0 n)
    /\ (forall j, (j < n)%nat ->
          F64.int_ltb (t_ j) (duration total_frames fps) = true)
    /\ (forall idx, In idx (seeks st) -> idx < total_frames).
Proof.
  intros Ho Hn Hd.
  destruct (finished_call_samples fuel total_frames o st Ho Hn Hd)
    as (n & _ & Hs & Hall & Hlt & _).
  exists n. split; [assumption|]. split; [|assumption].
  intros j Hj. destruct (in_range_index _ _ _ (Hall j Hj)) as (_ & _ & _ & Hd').
  exact Hd'.
Qed.

(** X2.  A frame that cannot be decoded is skipped and not counted: when a
    call finishes, [frames_checked] is the number of sought frames that the
    decoder delivered, so it never exceeds the number of frames sought. *)
Theorem frames_checked_counts_decoded_frames
    (fuel : nat) (total_frames : Z) (o : outcome) (st : state frame) :
  isOpened cap = true ->
  F64.to_int (CAP_PROP_FRAME_COUNT cap) = Some total_frames ->
  detect_best_face_frame fuel video_path output_path start_time interval
  = Some (o, st) ->
  frames_checked st = Z.of_nat (List.length (filter (decodes cap) (seeks st)))
  /\ 0 <= frames_checked st <= Z.of_nat (List.length (seeks st)).
Proof.
  intros Ho Hn Hd.
  destruct (finished_call_samples fuel total_frames o st Ho Hn Hd)
    as (n & _ & _ & _ & _ & Hc & Hb).
  auto.
Qed.

(** X3.  The selector returns [True] only for a face that meets the three
    conditions: the face it reports was detected in a sampled frame, is the
    first qualifying face of that frame, and no earlier sample had a
    qualifying face.  [cv2.resize] and [cv2.imwrite] have been called on
    that frame without raising; a file has been written exactly when
    [cv2.imwrite] returned [True], and it is that frame, 320 pixels wide. *)
Theorem true_only_for_a_qualifying_face
    (fuel : nat) (total_frames : Z) (st : state frame) :
  isOpened cap = true ->
  F64.to_int (CAP_PROP_FRAME_COUNT cap) = Some total_frames ->
  detect_best_face_frame fuel video_path output_path start_time interval
  = Some (Returned true, st) ->
  exists (k : nat) (idx th : Z) (f : frame) (r : rect) (wrote : bool),
    (forall j, (j < k)%nat -> selection_at cap fps (t_ j) = None)
    /\ frame_index fps (t_ k) = Some idx
    /\ idx < total_frames
    /\ read cap idx = Some f
    /\ In r (face_cascade (to_gray f))
    /\ size_gate (area_ratio (frame_shape f) r) = true
    /\ (2 <= eyes_of (to_gray f) r)%nat
    /\ score_gate (face_total (frame_shape f) r) = true
    /\ find (qualifies (frame_shape f) (to_gray f)) (face_cascade (to_gray f))
       = Some r
    /\ found st = Some (idx, r)
    /\ target_height (frame_shape f) = Some th
    /\ resize_raises f target_width th = false
    /\ cv2_imwrite output_path (Resize f target_width th)
         [IMWRITE_JPEG_QUALITY; jpeg_quality] = Some wrote
    /\ files st = (if wrote
                   then [Imwrite output_path (Resize f target_width th)
                           [IMWRITE_JPEG_QUALITY; jpeg_quality]]
                   else []).
Proof.
  intros Ho Hn Hd. rewrite (detect_opened _ _ _ _ _ total_frames) in Hd by assumption.
  apply scan_decompose in Hd. destruct Hd as (k & Hk & Hbefore & Hend).
  cbn zeta in Hend.
  destruct Hend as [[_ Hres]|[(_ & _ & Hres)|(Hr & idx & f & r & Hsel & Hres)]];
    try discriminate.
  unfold save_thumbnail in Hres. cbn zeta in Hres.
  destruct (target_height (frame_shape f)) as [th|] eqn:Hth; [|discriminate].
  destruct (resize_raises f target_width th) eqn:Hrs; [discriminate|].
  destruct (cv2_imwrite output_path (Resize f target_width th)
              [IMWRITE_JPEG_QUALITY; jpeg_quality]) as [wrote|] eqn:Hw;
    [|discriminate].
  injection Hres as Hst. subst st.
  apply selection_at_Some in Hsel. destruct Hsel as (Hi & Hread & Hfind).
  destruct (in_range_index _ _ _ Hr) as (i & Hi' & Hlt & _).
  assert (i = idx) by congruence. subst i.
  pose proof (find_some _ _ Hfind) as [Hin Hq].
  unfold qualifies in Hq. apply andb_prop in Hq. destruct Hq as [Hq Hscore].
  apply andb_prop in Hq. destruct Hq as [Hsize Heyes]. apply Nat.leb_le in Heyes.
  destruct (skips_keeps cap start_time interval fps k (opened cap)) as (Hf & _).
  exists k, idx, th, f, r, wrote.
  repeat split; try assumption.
  - intros j Hj. apply Hbefore. assumption.
  - destruct wrote; reflexivity.
  - destruct wrote; cbn [release imwrite report files checked seek];
      rewrite Hf; reflexivity.
Qed.

(** X4.  An exception leaves the capture open and writes nothing.  When a
    call ends with an uncaught exception (of [int] on the frame count or on
    a frame index, of the height computation, of [cv2.resize] or of
    [cv2.imwrite]), the video had been opened, [cap.release()] has not been
    called and no file has been written; and if a face had been reported by
    then, the exception is one of lines 141, 142 and 145. *)
Theorem exception_leaves_capture_open (fuel : nat) (st : state frame) :
  detect_best_face_frame fuel video_path output_path start_time interval
  = Some (Raised, st) ->
  isOpened cap = true
  /\ cap_open st = true
  /\ releases st = 0%nat
  /\ files st = []
  /\ (found st = None
      \/ exists total_frames t idx f r,
           F64.to_int (CAP_PROP_FRAME_COUNT cap) = Some total_frames
           /\ in_range total_frames fps t = true
           /\ selection_at cap fps t = Some (idx, f, r)
           /\ found st = Some (idx, r)
           /\ (target_height (frame_shape f) = None
               \/ exists th,
                    target_height (frame_shape f) = Some th
                    /\ (resize_raises f target_width th = true
                        \/ cv2_imwrite output_path (Resize f target_width th)
                             [IMWRITE_JPEG_QUALITY; jpeg_quality] = None))).
Proof.
  intros Hd. apply detect_post in Hd.
  destruct Hd as [(_ & Hr & _)|[(Ho & _ & _ & ->)|(Ho & n & Hn & Hp)]].
  - discriminate Hr.
  - cbn [opened cap_open releases files found]. rewrite Ho.
    repeat split; auto.
  - unfold scan_post in Hp. cbn [fst snd] in Hp.
    destruct Hp as (Hf & Hc & Hrel & Hfo).
    cbn [opened cap_open releases files found] in *. rewrite Ho in Hc.
    repeat split; auto.
    destruct Hfo as [Hfo|(t & idx & f & r & Hin & Hsel & Hfo & Hcause)];
      [left; assumption|].
    right. exists n, t, idx, f, r. auto.
Qed.

(** Every turn of the loop that does not end it moves the time forward by a
    positive interval, and the duration is finite: the loop ends. *)
Lemma scan_terminates (total_frames : Z) (n : nat) :
  forall (t : Z) (st : state frame),
    0 < interval ->
    F64.is_finite (duration total_frames fps) = true ->
    F64.ceiling (duration total_frames fps) - t <= Z.of_nat n * interval ->
    exists res,
      scan cap output_path interval total_frames fps (S n) t st = Some res.
Proof.
  induction n as [|n IH]; intros t st Hi Hfin Hb.
  - exists (Returned false, release st). apply scan_stop. unfold stops.
    destruct (F64.int_ltb t (duration total_frames fps)) eqn:Hlt; [|reflexivity].
    apply int_ltb_ceiling in Hlt; [lia|assumption].
  - destruct (sample_cases total_frames fps t) as [Hstop|[[Hd Hx]|Hin]].
    + eexists. apply scan_stop. assumption.
    + eexists. apply scan_raise; assumption.
    + destruct (selection_at cap fps t) as [[[idx f] r]|] eqn:Hsel.
      * eexists. apply (scan_hit _ _ _ _ _ _ _ _ idx f r); assumption.
      * rewrite scan_skip by assumption. apply IH; try assumption. lia.
Qed.

(** The call ends once it is allowed enough turns of the loop. *)
Lemma call_ends :
  0 < interval ->
  (forall n, F64.to_int (CAP_PROP_FRAME_COUNT cap) = Some n ->
             F64.is_finite (duration n fps) = true) ->
  exists (fuel0 : nat) (res : outcome * state frame),
    forall fuel, (fuel0 <= fuel)%nat ->
      detect_best_face_frame fuel video_path output_path start_time interval
      = Some res.
Proof.
  intros Hi Hfin. unfold detect_best_face_frame.
  destruct (isOpened cap); cbn [negb].
  2:{ exists O. eexists. reflexivity. }
  destruct (F64.to_int (CAP_PROP_FRAME_COUNT cap)) as [n|].
  2:{ exists O. eexists. reflexivity. }
  specialize (Hfin n eq_refl).
  set (m := Z.to_nat ((F64.ceiling (duration n fps) - start_time) / interval + 1)).
  destruct (scan_terminates n m start_time (opened cap) Hi Hfin) as (res & Hres).
  { unfold m.
    pose proof (Z.mul_succ_div_gt (F64.ceiling (duration n fps) - start_time)
                  interval Hi) as Hd.
    unfold Z.succ in Hd.
    destruct (Z.le_gt_cases 0
                ((F64.ceiling (duration n fps) - start_time) / interval + 1))
      as [Hpos|Hneg].
    - rewrite Z2Nat.id by assumption. nia.
    - replace (Z.to_nat _) with 0%nat by lia. nia. }
  exists (S m), res. intros fuel Hfuel.
  replace fuel with (S m + (fuel - S m))%nat by lia.
  apply scan_fuel_mono. exact Hres.
Qed.

(** X5.  With a positive interval and a video of finite duration the call
    always ends, with a return or an exception, after a number of loop turns
    that the duration bounds; what it ends with does not depend on how many
    more turns it was allowed. *)
Theorem call_ends_for_positive_interval :
  0 < interval ->
  (forall n, F64.to_int (CAP_PROP_FRAME_COUNT cap) = Some n ->
             F64.is_finite (duration n fps) = true) ->
  exists (fuel0 : nat) (res : outcome * state frame),
    forall fuel, (fuel0 <= fuel)%nat ->
      detect_best_face_frame fuel video_path output_path start_time interval
      = Some res.
Proof. exact call_ends. Qed.

(** X6.  With [interval = 0] the time never moves: if the frame at the start
    time lies inside the video and yields no selection, the loop never ends,
    however many turns it is given. *)
Theorem zero_interval_never_ends (total_frames : Z) :
  interval = 0 ->
  isOpened cap = true ->
  F64.to_int (CAP_PROP_FRAME_COUNT cap) = Some total_frames ->
  in_range total_frames fps start_time = true ->
  selection_at cap fps start_time = None ->
  forall fuel,
    detect_best_face_frame fuel video_path output_path start_time interval = None.
Proof.
  intros Hz Ho Hn Hin Hsel fuel.
  rewrite (detect_opened _ _ _ _ _ total_frames) by assumption.
  generalize (opened cap).
  induction fuel as [|fuel IH]; intros st; [reflexivity|].
  rewrite scan_skip by assumption.
  replace (start_time + interval) with start_time by lia. apply IH.
Qed.

End Finished.


(** ** The entry point *)

Section EntryPoint.

Context {frame gray : Type} `{Env frame gray}.

(** X8.  The exit status says what the selector returned, not that a
    thumbnail exists.  The status is never anything but 0 or 1, and it is 0
    only when the script was given three arguments, the video exists, and
    the selector returned [True]: [cv2.imwrite] has then been called on a
    sampled frame resized to 320 pixels wide, with JPEG quality 85, and has
    not raised; the file is there exactly when [cv2.imwrite] returned
    [True], which the script does not look at. *)
Theorem exit_status_0_means_true_returned
    (fuel : nat) (argv : list string) (status : Z) :
  main fuel argv = Some status ->
  (status = 0 \/ status = 1)
  /\ (status = 0 ->
      exists program video_path output_path st f th wrote,
        argv = [program; video_path; output_path]
        /\ path_exists video_path = true
        /\ detect_best_face_frame fuel video_path output_path
             default_start_time default_interval = Some (Returned true, st)
        /\ resize_raises f 320 th = false
        /\ cv2_imwrite output_path (Resize f 320 th) [IMWRITE_JPEG_QUALITY; 85]
           = Some wrote
        /\ files st = (if wrote
                       then [Imwrite output_path (Resize f 320 th)
                               [IMWRITE_JPEG_QUALITY; 85]]
                       else [])
        /\ cap_open st = false).
Proof.
  unfold main.
  destruct argv as [|p [|v [|o [|d rest]]]];
    try (intros [= <-]; split; [auto|discriminate]).
  destruct (path_exists v) eqn:He; cbn [negb];
    [|intros [= <-]; split; [auto|discriminate]].
  destruct (detect_best_face_frame fuel v o default_start_time default_interval)
    as [[[[|]|] st]|] eqn:Hd; try discriminate;
    intros [= <-]; (split; [auto|]); try discriminate.
  intros _. pose proof Hd as Hd'. apply detect_post in Hd'.
  destruct Hd' as [(_ & Hr & _)|[(_ & _ & Hr & _)|(Ho & n & Hn & Hp)]];
    try discriminate Hr.
  unfold scan_post in Hp. cbn [fst snd] in Hp.
  destruct Hp as (t & idx & f & r & th & wrote & _ & _ & _ & Hrs & Hw & Hf & _
                  & Hc & _).
  exists p, v, o, st, f, th, wrote. cbn [opened files app] in Hf. auto 10.
Qed.

(** X12.  Run on a video of finite duration, the script always exits, and
    with status 0 or 1: no argument list makes it hang or end with another
    status. *)
Theorem entry_point_always_exits (argv : list string) :
  (forall video_path n,
     F64.to_int (CAP_PROP_FRAME_COUNT (VideoCapture video_path)) = Some n ->
     F64.is_finite (duration n (CAP_PROP_FPS (VideoCapture video_path))) = true) ->
  exists (fuel0 : nat) (status : Z),
    (status = 0 \/ status = 1)
    /\ forall fuel, (fuel0 <= fuel)%nat -> main fuel argv = Some status.
Proof.
  intros Hfin. unfold main.
  destruct argv as [|p [|v [|o [|d rest]]]];
    try (exists O, 1; split; [auto|reflexivity]).
  destruct (path_exists v); cbn [negb];
    [|exists O, 1; split; [auto|reflexivity]].
  destruct (call_ends v o default_start_time default_interval)
    as (fuel0 & [[[|]|] st] & Hres);
    [reflexivity|apply Hfin|..].
  - exists fuel0, 0. split; [auto|]. intros fuel Hf. rewrite (Hres fuel Hf).
    reflexivity.
  - exists fuel0, 1. split; [auto|]. intros fuel Hf. rewrite (Hres fuel Hf).
    reflexivity.
  - exists fuel0, 1. split; [auto|]. intros fuel Hf. rewrite (Hres fuel Hf).
    reflexivity.
Qed.

End EntryPoint.


(** ** The GPU path *)

Section Gpu.

Context {frame gray : Type} (E : Env frame gray).

(** The GPU is not used, or its conversion fails or agrees with the CPU's. *)
Hypothesis gpu_transparent :
  @use_gpu _ _ E = false
  \/ forall f, @cuda_cvtColor _ _ E f = None
               \/ @cuda_cvtColor _ _ E f = Some (@cvtColor _ _ E f).

Lemma to_gray_cpu_only (f : frame) :
  @to_gray _ _ E f = @to_gray _ _ (cpu_only E) f.
Proof.
  unfold to_gray at 2. cbn. unfold to_gray.
  destruct gpu_transparent as [-> | Hg]; [reflexivity|].
  destruct (@use_gpu _ _ E); [|reflexivity].
  destruct (Hg f) as [-> | ->]; reflexivity.
Qed.

Lemma check_faces_cpu_only (s : shape) (g : gray) (faces : list rect) :
  @check_faces _ _ E s g faces = @check_faces _ _ (cpu_only E) s g faces.
Proof.
  induction faces as [|r rest IH]; [reflexivity|].
  cbn [check_faces]. rewrite IH. reflexivity.
Qed.

Lemma scan_cpu_only (cap : capture frame) (output_path : string)
    (interval total_frames : Z) (fps : float) (fuel : nat) :
  forall (t : Z) (st : state frame),
    @scan _ _ E cap output_path interval total_frames fps fuel t st
    = @scan _ _ (cpu_only E) cap output_path interval total_frames fps fuel t st.
Proof.
  induction fuel as [|fuel IH]; intros t st; [reflexivity|].
  cbn [scan].
  destruct (F64.int_ltb t (duration total_frames fps)); [|reflexivity].
  destruct (frame_index fps t) as [idx|]; [|reflexivity].
  destruct (total_frames <=? idx); [reflexivity|].
  destruct (read cap idx) as [f|]; [|apply IH].
  rewrite <- to_gray_cpu_only.
  change (@face_cascade _ _ (cpu_only E)) with (@face_cascade _ _ E).
  change (@frame_shape _ _ (cpu_only E)) with (@frame_shape _ _ E).
  rewrite <- check_faces_cpu_only, !IH.
  reflexivity.
Qed.

(** X9.  A missing or failing GPU never changes the result: when no CUDA
    device is usable, or the GPU conversion of a frame raises, or it yields
    the image the CPU conversion yields, the call does exactly what it does
    on a machine without CUDA. *)
Theorem gpu_faults_are_transparent
    (fuel : nat) (video_path output_path : string) (start_time interval : Z) :
  @detect_best_face_frame _ _ E fuel video_path output_path start_time interval
  = @detect_best_face_frame _ _ (cpu_only E) fuel video_path output_path
      start_time interval.
Proof.
  unfold detect_best_face_frame.
  change (@VideoCapture _ _ (cpu_only E)) with (@VideoCapture _ _ E).
  destruct (isOpened (VideoCapture video_path)); [|reflexivity]. cbn [negb].
  destruct (F64.to_int (CAP_PROP_FRAME_COUNT (VideoCapture video_path)));
    [|reflexivity].
  apply scan_cpu_only.
Qed.

End Gpu.


(** ** Frame indices and score bounds *)

Section ValidIndices.

Context {frame gray : Type} `{Env frame gray}.

Import SignFacts.

(** X10.  With a start time and an interval that are not negative, every
    frame a finished call has sought is a frame of the video: its index is
    at least 0 and below the frame count. *)
Theorem sought_frames_are_valid_indices
    (video_path output_path : string) (start_time interval : Z)
    (fuel : nat) (total_frames : Z) (o : outcome) (st : state frame) :
  0 <= start_time -> 0 <= interval ->
  isOpened (VideoCapture video_path) = true ->
  F64.to_int (CAP_PROP_FRAME_COUNT (VideoCapture video_path)) = Some total_frames ->
  detect_best_face_frame fuel video_path output_path start_time interval
  = Some (o, st) ->
  forall idx, In idx (seeks st) -> 0 <= idx < total_frames.
Proof.
  intros Hs Hi Ho Hn Hd idx Hidx.
  destruct (finished_call_samples video_path output_path start_time interval
              fuel total_frames o st Ho Hn Hd)
    as (n & _ & Hseeks & Hall & Hlt & _).
  split; [|apply Hlt; assumption].
  apply (in_map Some) in Hidx. rewrite Hseeks in Hidx.
  apply in_map_iff in Hidx. destruct Hidx as (j & Hj & Hseq).
  apply in_seq in Hseq. specialize (Hall j ltac:(lia)).
  assert (Ht : 0 <= sample_time start_time interval j)
    by (unfold sample_time; nia).
  apply (frame_index_nonneg (CAP_PROP_FPS (VideoCapture video_path))
           (sample_time start_time interval j) idx Ht); [|exact Hj].
  unfold in_range in Hall. apply andb_prop in Hall. destruct Hall as [Hdur _].
  unfold duration in Hdur.
  destruct (F64.int_ltb 0 (CAP_PROP_FPS (VideoCapture video_path)));
    [reflexivity|].
  exfalso. change (F64.of_int 0) with (S754_zero false) in Hdur.
  cbn [F64.int_ltb] in Hdur. apply Z.ltb_lt in Hdur. lia.
Qed.

End ValidIndices.

Section ScoreBounds.

Import F64 F64Facts ScoreFacts SignFacts.

(** X11.  In a frame with a positive width and height the size score is at
    most 30 and the position score lies between 0 and 20; for a face that
    passes the size gate the total is at most 100. *)
Theorem scores_are_bounded (s : shape) (r : rect) :
  0 < width s -> 0 < height s ->
  F64.leb (size_score (area_ratio s r)) (F64.of_int 30) = true
  /\ F64.leb (F64.of_int 0) (position_score (center_dist s r)) = true
  /\ F64.leb (position_score (center_dist s r)) (F64.of_int 20) = true
  /\ (size_gate (area_ratio s r) = true ->
      F64.leb (face_total s r) (F64.of_int 100) = true).
Proof.
  intros Hw Hh.
  destruct (size_score_le_30 (area_ratio s r)) as (Hsv & Hsn & Hs30).
  destruct (position_score_range (center_dist s r)) as (Hpv & Hpn & Hp0).
  pose proof (position_score_le_20 (center_dist s r) (center_dist_valid s r)
                (center_dist_nonneg s r Hw Hh)) as Hp20.
  split; [|split; [|split]].
  - rewrite leb_rank by (assumption || reflexivity). apply Z.leb_le. exact Hs30.
  - rewrite leb_rank by (assumption || reflexivity). apply Z.leb_le. exact Hp0.
  - rewrite leb_rank by (assumption || reflexivity). apply Z.leb_le. exact Hp20.
  - intros Hg.
    destruct (size_score_ge_27 (area_ratio s r) (area_ratio_valid s r) Hg)
      as (_ & _ & Hs27).
    assert (H27 : 0 <= rank (F64.of_int 27)) by apply rank_nonneg_finite.
    destruct (total_score_mono (size_score (area_ratio s r)) (F64.of_int 30)
                (position_score (center_dist s r)) (F64.of_int 20))
      as (Hv1 & _ & Hn1 & _ & Hle); try assumption; try reflexivity; try lia.
    assert (H100 : total_score (F64.of_int 30) (F64.of_int 20) = F64.of_int 100)
      by (vm_compute; reflexivity).
    rewrite H100 in Hle. unfold face_total.
    rewrite leb_rank by (assumption || reflexivity). apply Z.leb_le. exact Hle.
Qed.

End ScoreBounds.

Section Thumbnail.

Import SignFacts.

(** X13.  The height computed for the thumbnail of a frame with a positive
    width and a height that is not negative is never negative. *)
Theorem thumbnail_height_is_not_negative (s : shape) (th : Z) :
  0 < width s -> 0 <= height s -> target_height s = Some th -> 0 <= th.
Proof.
  intros Hw Hh. unfold target_height.
  destruct (width s =? 0) eqn:Hz; [discriminate|].
  apply to_int_nonneg. apply mul_nonneg.
  - apply of_int_nonneg. assumption.
  - apply div_nonneg; [apply of_int_nonneg; unfold target_width; lia|].
    apply of_int_positive. assumption.
Qed.

End Thumbnail.

(** ** The further properties on the bench videos *)

Module FurtherFacts.

Import Bench.

(** The run on [face.mp4]: the frames of 10 s, 12 s and 14 s are sought. *)
Lemma sought_frames_are_consecutive_samples_witness :
  exists n : nat,
    map Some (seeks face_final)
    = map (fun j => frame_index (CAP_PROP_FPS (@VideoCapture _ _ world "face.mp4"))
                      (sample_time 10 2 j)) (seq 0 n)
    /\ (forall j, (j < n)%nat ->
          F64.int_ltb (sample_time 10 2 j)
            (duration 900 (CAP_PROP_FPS (@VideoCapture _ _ world "face.mp4")))
          = true)
    /\ (forall idx, In idx (seeks face_final) -> idx < 900).
Proof.
  apply (@sought_frames_are_consecutive_samples _ _ world "face.mp4" "thumb.jpg"
           10 2 20 900 (Returned true) face_final).
  - reflexivity.
  - vm_compute. reflexivity.
  - vm_compute. reflexivity.
Defined.

(** Of the three frames sought in [face.mp4] the one at 12 s cannot be
    decoded: two frames are counted. *)
Lemma frames_checked_counts_decoded_frames_witness :
  frames_checked face_final
  = Z.of_nat (List.length (filter (decodes (@VideoCapture _ _ world "face.mp4"))
                             (seeks face_final)))
  /\ 0 <= frames_checked face_final <= Z.of_nat (List.length (seeks face_final)).
Proof.
  apply (@frames_checked_counts_decoded_frames _ _ world "face.mp4" "thumb.jpg"
           10 2 20 900 (Returned true) face_final).
  - reflexivity.
  - vm_compute. reflexivity.
  - vm_compute. reflexivity.
Defined.

Lemma true_only_for_a_qualifying_face_witness :
  exists (k : nat) (idx th : Z) (f : frame) (r : rect) (wrote : bool),
    (forall j, (j < k)%nat ->
       @selection_at _ _ world (@VideoCapture _ _ world "face.mp4")
         (CAP_PROP_FPS (@VideoCapture _ _ world "face.mp4"))
         (sample_time 10 2 j) = None)
    /\ frame_index (CAP_PROP_FPS (@VideoCapture _ _ world "face.mp4"))
         (sample_time 10 2 k) = Some idx
    /\ idx < 900
    /\ read (@VideoCapture _ _ world "face.mp4") idx = Some f
    /\ In r (@face_cascade _ _ world (@to_gray _ _ world f))
    /\ size_gate (area_ratio (@frame_shape _ _ world f) r) = true
    /\ (2 <= @eyes_of _ _ world (@to_gray _ _ world f) r)%nat
    /\ score_gate (face_total (@frame_shape _ _ world f) r) = true
    /\ find (@qualifies _ _ world (@frame_shape _ _ world f) (@to_gray _ _ world f))
            (@face_cascade _ _ world (@to_gray _ _ world f)) = Some r
    /\ found face_final = Some (idx, r)
    /\ target_height (@frame_shape _ _ world f) = Some th
    /\ @resize_raises _ _ world f target_width th = false
    /\ @cv2_imwrite _ _ world "thumb.jpg" (Resize f target_width th)
         [IMWRITE_JPEG_QUALITY; jpeg_quality] = Some wrote
    /\ files face_final
       = (if wrote
          then [Imwrite "thumb.jpg" (Resize f target_width th)
                  [IMWRITE_JPEG_QUALITY; jpeg_quality]]
          else []).
Proof.
  apply (@true_only_for_a_qualifying_face _ _ world "face.mp4" "thumb.jpg"
           10 2 20 900 face_final).
  - reflexivity.
  - vm_compute. reflexivity.
  - vm_compute. reflexivity.
Defined.

(** With the output path [thumb], which has no extension, [cv2.imwrite]
    raises after the face of [face.mp4] has been reported: three frames
    have been sought, the capture is open and nothing has been written. *)
Lemma exception_leaves_capture_open_witness :
  isOpened (@VideoCapture _ _ world "face.mp4") = true
  /\ cap_open Faults.no_encoder_final = true
  /\ releases Faults.no_encoder_final = 0%nat
  /\ files Faults.no_encoder_final = []
  /\ (found Faults.no_encoder_final = None
      \/ exists total_frames t idx f r,
           F64.to_int (CAP_PROP_FRAME_COUNT (@VideoCapture _ _ world "face.mp4"))
           = Some total_frames
           /\ in_range total_frames
                (CAP_PROP_FPS (@VideoCapture _ _ world "face.mp4")) t = true
           /\ @selection_at _ _ world (@VideoCapture _ _ world "face.mp4")
                (CAP_PROP_FPS (@VideoCapture _ _ world "face.mp4")) t
              = Some (idx, f, r)
           /\ found Faults.no_encoder_final = Some (idx, r)
           /\ (target_height (@frame_shape _ _ world f) = None
               \/ exists th,
                    target_height (@frame_shape _ _ world f) = Some th
                    /\ (@resize_raises _ _ world f target_width th = true
                        \/ @cv2_imwrite _ _ world "thumb"
                             (Resize f target_width th)
                             [IMWRITE_JPEG_QUALITY; jpeg_quality] = None))).
Proof.
  apply (@exception_leaves_capture_open _ _ world "face.mp4" "thumb" 10 2 20
           Faults.no_encoder_final).
  vm_compute. reflexivity.
Defined.

Lemma call_ends_for_positive_interval_witness :
  exists (fuel0 : nat) (res : outcome * state frame),
    forall fuel, (fuel0 <= fuel)%nat ->
      @detect_best_face_frame _ _ world fuel "plain.mp4" "thumb.jpg" 10 2
      = Some res.
Proof.
  apply (@call_ends_for_positive_interval _ _ world "plain.mp4" "thumb.jpg" 10 2).
  - lia.
  - intros n Hn. vm_compute in Hn. injection Hn as <-. vm_compute. reflexivity.
Defined.

(** With [interval = 0] the run on [plain.mp4] looks at the frame of 10 s
    for ever. *)
Lemma zero_interval_never_ends_witness :
  @detect_best_face_frame _ _ world 1000 "plain.mp4" "thumb.jpg" 10 0 = None.
Proof.
  apply (@zero_interval_never_ends _ _ world "plain.mp4" "thumb.jpg" 10 0 900).
  - reflexivity.
  - reflexivity.
  - vm_compute. reflexivity.
  - vm_compute. reflexivity.
  - vm_compute. reflexivity.
Defined.

Lemma exit_status_0_means_true_returned_witness :
  (0 = 0 \/ 0 = 1)
  /\ (0 = 0 ->
      exists program video_path output_path st f th wrote,
        ["face_detect_thumbnail.py"; "face.mp4"; "thumb.jpg"]%string
        = [program; video_path; output_path]
        /\ @path_exists _ _ world video_path = true
        /\ @detect_best_face_frame _ _ world 20 video_path output_path
             default_start_time default_interval = Some (Returned true, st)
        /\ @resize_raises _ _ world f 320 th = false
        /\ @cv2_imwrite _ _ world output_path (Resize f 320 th)
             [IMWRITE_JPEG_QUALITY; 85] = Some wrote
        /\ files st = (if wrote
                       then [Imwrite output_path (Resize f 320 th)
                               [IMWRITE_JPEG_QUALITY; 85]]
                       else [])
        /\ cap_open st = false).
Proof.
  apply (@exit_status_0_means_true_returned _ _ world 20
           ["face_detect_thumbnail.py"; "face.mp4"; "thumb.jpg"]%string 0).
  vm_compute. reflexivity.
Defined.

(** Exit status 0 without a thumbnail: the output path cannot be created,
    [cv2.imwrite] returns [False], and the script still exits with 0. *)
Lemma exit_status_0_without_file :
  @main _ _ world 20
    ["face_detect_thumbnail.py"; "face.mp4"; "/proc/thumb.jpg"]%string = Some 0
  /\ exists st,
       @detect_best_face_frame _ _ world 20 "face.mp4" "/proc/thumb.jpg"
         default_start_time default_interval = Some (Returned true, st)
       /\ files st = [].
Proof. split; [|eexists]; vm_compute; auto. Qed.

Lemma entry_point_always_exits_witness :
  exists (fuel0 : nat) (status : Z),
    (status = 0 \/ status = 1)
    /\ forall fuel, (fuel0 <= fuel)%nat ->
         @main _ _ world fuel ["face_detect_thumbnail.py"; "face.mp4"; "thumb.jpg"]%string
         = Some status.
Proof.
  apply (@entry_point_always_exits _ _ world).
  intros v n. cbn [VideoCapture world env]. unfold videos.
  repeat match goal with
         | |- context [String.eqb v ?s] => destruct (String.eqb v s)
         end;
    intros Hn; vm_compute in Hn; injection Hn as <-; vm_compute; reflexivity.
Defined.

(** On the machine whose GPU conversion fails for every frame without a
    face, the run on [face.mp4] is the run of the machine without CUDA. *)
Lemma gpu_faults_are_transparent_witness :
  @detect_best_face_frame _ _ Faults.gpu_world 20 "face.mp4" "thumb.jpg" 10 2
  = @detect_best_face_frame _ _ (cpu_only Faults.gpu_world) 20 "face.mp4"
      "thumb.jpg" 10 2.
Proof.
  apply (@gpu_faults_are_transparent _ _ Faults.gpu_world).
  right. intros [s [|x l]]; [left|right]; reflexivity.
Defined.

(** The frame of 14 s in [face.mp4] has index 420. *)
Lemma sought_frames_are_valid_indices_witness : 0 <= 420 < 900.
Proof.
  apply (@sought_frames_are_valid_indices _ _ world "face.mp4" "thumb.jpg"
           10 2 20 900 (Returned true) face_final).
  - lia.
  - lia.
  - reflexivity.
  - vm_compute. reflexivity.
  - vm_compute. reflexivity.
  - vm_compute. auto.
Defined.

Lemma scores_are_bounded_witness :
  F64.leb (size_score (area_ratio (Shape 723 1280) big_face)) (F64.of_int 30)
  = true
  /\ F64.leb (F64.of_int 0)
       (position_score (center_dist (Shape 723 1280) big_face)) = true
  /\ F64.leb (position_score (center_dist (Shape 723 1280) big_face))
       (F64.of_int 20) = true
  /\ (size_gate (area_ratio (Shape 723 1280) big_face) = true ->
      F64.leb (face_total (Shape 723 1280) big_face) (F64.of_int 100) = true).
Proof.
  apply (scores_are_bounded (Shape 723 1280) big_face).
  - simpl. lia.
  - simpl. lia.
Defined.

Lemma thumbnail_height_is_not_negative_witness : 0 <= 180.
Proof.
  apply (thumbnail_height_is_not_negative (Shape 723 1280) 180).
  - simpl. lia.
  - simpl. lia.
  - vm_compute. reflexivity.
Defined.

End FurtherFacts.
